(** * dynago: the document model, its wire codec and its typed accessors

    A shallow embedding of [types.go] (package [dynago]): the [Document]
    type, its JSON marshalling methods, the typed getters and the [Params]
    capability, together with the parts of the Go standard library these
    functions call ([reflect], [strconv.Atoi], [time.ParseInLocation],
    [encoding/json] on generic values). *)

From Stdlib Require Import ZArith Ascii String.
From Stdlib.Strings Require Import Byte.
From stdpp Require Import gmap strings list fin_maps.

Local Open Scope string_scope.
Set Warnings "-register-all".

Abbreviation byte := Byte.byte (only parsing).

(** ** Outcomes of a Go call

    A call either returns or panics.  The two panics of [types.go] are a
    failed type assertion [x.(T)] and the explicit [panic(err)] of
    [GetTime]; a failure inside the wire codec aborts the call as well. *)

Inductive GoType :=
| TString | TNumber | TBytes | TBool
| TStringSet | TNumberSet | TBinarySet | TList | TDocument.

Inductive panic :=
| TypeAssertionError (have : option GoType) (want : GoType)
| ParseError (text : string)
| CodecFailure.

Inductive result (A : Type) :=
| Returned (a : A)
| Panicked (p : panic).
Arguments Returned {A} a.
Arguments Panicked {A} p.

Definition rbind {A B} (r : result A) (k : A → result B) : result B :=
  match r with
  | Returned a => k a
  | Panicked p => Panicked p
  end.

Notation "'do' x <- r ; k" := (rbind r (λ x, k))
  (at level 10, x name, r at level 100, k at level 200).

(** ** The value vocabulary

    [interface{}] restricted to the dynamic types the library stores in a
    document.  [VNil] is the nil interface (the NULL marker).  A nil slice
    and an empty slice are both the empty list: [reflect]'s [Len] is 0 for
    either and nothing below tells them apart. *)

Inductive value :=
| VNil
| VString (s : string)
| VNumber (n : string)
| VBinary (b : list byte)
| VBool (b : bool)
| VStringSet (ss : list string)
| VNumberSet (ns : list string)
| VBinarySet (bs : list (list byte))
| VList (l : list value)
| VDocument (d : gmap string value).

Abbreviation StringSet := (list string) (only parsing).
Abbreviation NumberSet := (list string) (only parsing).
Abbreviation BinarySet := (list (list byte)) (only parsing).
Abbreviation List := (list value) (only parsing).
Abbreviation Number := string (only parsing).
Abbreviation Document := (gmap string value) (only parsing).

(** The dynamic type of an interface value; the nil interface has none. *)
Definition TypeOf (v : value) : option GoType :=
  match v with
  | VNil => None
  | VString _ => Some TString
  | VNumber _ => Some TNumber
  | VBinary _ => Some TBytes
  | VBool _ => Some TBool
  | VStringSet _ => Some TStringSet
  | VNumberSet _ => Some TNumberSet
  | VBinarySet _ => Some TBinarySet
  | VList _ => Some TList
  | VDocument _ => Some TDocument
  end.

(** ** [reflect]: kinds, [Len], [IsNil] *)

Module reflect.

Inductive Kind :=
| Invalid | Bool | Array | Interface | Map | Ptr | Slice | String.

End reflect.

(** [reflect.ValueOf(val).Kind()]: the kind of the underlying type.
    [Number] is a named string type, the three sets, [List] and [[]byte]
    are slices, [Document] is a map; the nil interface gives the zero
    [reflect.Value], whose kind is [Invalid]. *)
Definition Kind_of (v : value) : reflect.Kind :=
  match v with
  | VNil => reflect.Invalid
  | VString _ | VNumber _ => reflect.String
  | VBool _ => reflect.Bool
  | VBinary _ | VStringSet _ | VNumberSet _ | VBinarySet _ | VList _ =>
      reflect.Slice
  | VDocument _ => reflect.Map
  end.

Definition Len (v : value) : nat :=
  match v with
  | VString s | VNumber s => String.length s
  | VBinary b => length b
  | VStringSet l | VNumberSet l => length l
  | VBinarySet l => length l
  | VList l => length l
  | VDocument d => size d
  | VNil | VBool _ => 0
  end.

(** No value of the vocabulary has kind [Interface] or [Ptr]; [IsNil] is
    only there for the shape of the switch. *)
Definition IsNil (v : value) : bool :=
  match v with VNil => true | _ => false end.

Definition isEmptyValue (v : value) : bool :=
  match Kind_of v with
  | reflect.Array | reflect.Map | reflect.Slice | reflect.String =>
      Nat.eqb (Len v) 0
  | reflect.Interface | reflect.Ptr => IsNil v
  | reflect.Invalid => true
  | _ => false
  end.

(** ** [strconv.Atoi] and [Number.IntVal]

    [int] is taken to be 64 bits wide.  Integers are in [Z]; the two
    places where the Go code relies on the width are written out. *)

(** The [Err] field of a [*strconv.NumError]: which of the two sentinel
    errors it wraps.  The fields [Func] and [Num] (the name of the
    function and the text) are not kept: errors are compared by class. *)
Inductive NumError := ErrSyntax | ErrRange.

Definition digit (c : ascii) : option Z :=
  let n := Z.of_N (N_of_ascii c) in
  if (48 <=? n)%Z && (n <=? 57)%Z then Some (n - 48)%Z else None.

Definition isSign (c : ascii) : bool :=
  bool_decide (c = "-"%char) || bool_decide (c = "+"%char).

(** The digit loop of the fast path: no overflow is possible there. *)
Fixpoint atoi_digits (s : string) (n : Z) : Z * option NumError :=
  match s with
  | EmptyString => (n, None)
  | String ch s' =>
      match digit ch with
      | None => (0%Z, Some ErrSyntax)
      | Some d => atoi_digits s' (n * 10 + d)%Z
      end
  end.

Definition maxUint64 : Z := (2 ^ 64 - 1)%Z.

(** The digit loop of [ParseUint(s, 10, 64)].  It returns at the first
    overflow, before looking at the characters that follow.  In [uint64]
    the second test is a wrap-around test ([n1 < n]); in [Z] it reads
    [n1 > maxVal]. *)
Fixpoint ParseUint_loop (s : string) (n : Z) : Z * option NumError :=
  match s with
  | EmptyString => (n, None)
  | String c s' =>
      match digit c with
      | None => (0%Z, Some ErrSyntax)
      | Some d =>
          if (maxUint64 / 10 + 1 <=? n)%Z then (maxUint64, Some ErrRange)
          else
            let n1 := (n * 10 + d)%Z in
            if (maxUint64 <? n1)%Z then (maxUint64, Some ErrRange)
            else ParseUint_loop s' n1
      end
  end.

Definition ParseUint (s : string) : Z * option NumError :=
  match s with
  | EmptyString => (0%Z, Some ErrSyntax)
  | _ => ParseUint_loop s 0
  end.

Definition ParseInt (s : string) : Z * option NumError :=
  match s with
  | EmptyString => (0%Z, Some ErrSyntax)
  | String c0 s' =>
      let neg := bool_decide (c0 = "-"%char) in
      let s1 := if isSign c0 then s' else s in
      match ParseUint s1 with
      | (_, Some ErrSyntax) => (0%Z, Some ErrSyntax)
      | (un, _) =>
          let cutoff := (2 ^ 63)%Z in
          if negb neg && (cutoff <=? un)%Z then (cutoff - 1, Some ErrRange)%Z
          else if neg && (cutoff <? un)%Z then (- cutoff, Some ErrRange)%Z
          else (if neg then (- un)%Z else un, None)
      end
  end.

Definition Atoi (s : string) : Z * option NumError :=
  let sLen := String.length s in
  if (0 <? sLen)%nat && (sLen <? 19)%nat then
    match s with
    | EmptyString => (0%Z, Some ErrSyntax)
    | String c0 s' =>
        let s1 := if isSign c0 then s' else s in
        match s1 with
        | EmptyString => (0%Z, Some ErrSyntax)
        | _ =>
            match atoi_digits s1 0 with
            | (n, None) =>
                (if bool_decide (c0 = "-"%char) then (- n)%Z else n, None)
            | (_, Some e) => (0%Z, Some e)
            end
        end
    end
  else ParseInt s.

Definition IntVal (n : Number) : Z * option NumError := Atoi n.

(** [ParseInt(s, 10, 64)] and [ParseUint(s, 10, 64)]. *)
Definition Int64Val (n : Number) : Z * option NumError := ParseInt n.

Definition Uint64Val (n : Number) : Z * option NumError := ParseUint n.

(** ** [time.ParseInLocation] on the layouts the library uses

    A layout is given by the chunks [time.Parse] cuts it into.  Only the
    chunks of the two layouts below are modelled; the location is always
    [time.UTC] and no chunk carries a zone, so the fields read are the
    fields of the result. *)

Inductive chunk :=
| stdLongYear            (* "2006" *)
| stdZeroMonth           (* "01" *)
| stdZeroDay             (* "02" *)
| stdHour                (* "15" *)
| stdZeroMinute          (* "04" *)
| stdZeroSecond          (* "05" *)
| literal (c : ascii).

Record Time := mkTime {
  year : Z; month : Z; day : Z;
  hour : Z; minute : Z; second : Z; nanosecond : Z
}.

Definition isDigit (s : string) (i : nat) : bool :=
  match String.get i s with
  | Some c => bool_decide (is_Some (digit c))
  | None => false
  end.

Definition digit0 (c : ascii) : Z := default 0%Z (digit c).

(** [getnum(s, fixed)]: one or two digits; two are required when [fixed]. *)
Definition getnum (s : string) (fixed : bool) : option (Z * string) :=
  match s with
  | String c0 s1 =>
      if negb (isDigit s 0) then None
      else if negb (isDigit s 1) then
        if fixed then None else Some (digit0 c0, s1)
      else
        match s1 with
        | String c1 s2 => Some ((digit0 c0) * 10 + digit0 c1, s2)%Z
        | EmptyString => None
        end
  | EmptyString => None
  end.

(** The maximal run of digits at the head of a string. *)
Fixpoint leadingDigits (s : string) : list Z * string :=
  match s with
  | String c s' =>
      match digit c with
      | Some d => let '(ds, rest) := leadingDigits s' in (d :: ds, rest)
      | None => ([], s)
      end
  | EmptyString => ([], s)
  end.

Definition digitsVal (ds : list Z) : Z :=
  foldl (λ n d, n * 10 + d)%Z 0%Z ds.

Definition commaOrPeriod (c : ascii) : bool :=
  bool_decide (c = "."%char) || bool_decide (c = ","%char).

(** A fractional second in the input where the layout has none: the
    separator and the digits after it are consumed; at most nine digits
    count. *)
Definition fractionalSecond (v : string) : Z * string :=
  match v with
  | String c0 v1 =>
      if commaOrPeriod c0 && isDigit v 1 then
        let '(ds, rest) := leadingDigits v1 in
        let kept := take 9 ds in
        ((digitsVal kept) * 10 ^ Z.of_nat (9 - length kept), rest)%Z
      else (0%Z, v)
  | EmptyString => (0%Z, v)
  end.

Definition isLeap (y : Z) : bool :=
  (y mod 4 =? 0)%Z && (negb (y mod 100 =? 0)%Z || (y mod 400 =? 0)%Z).

Definition daysIn (m y : Z) : Z :=
  if (m =? 2)%Z then (if isLeap y then 29 else 28)%Z
  else if (m =? 4)%Z || (m =? 6)%Z || (m =? 9)%Z || (m =? 11)%Z then 30%Z
  else 31%Z.

(** One chunk of the layout against the head of the value. *)
Definition parseChunk (c : chunk) (t : Time) (v : string)
  : option (Time * string) :=
  match c with
  | literal ch =>
      match v with
      | String ch' v' => if bool_decide (ch = ch') then Some (t, v') else None
      | EmptyString => None
      end
  | stdLongYear =>
      if (String.length v <? 4)%nat || negb (isDigit v 0) then None
      else
        match leadingDigits (String.substring 0 4 v) with
        | (ds, EmptyString) =>
            Some (mkTime (digitsVal ds) (month t) (day t) (hour t)
                    (minute t) (second t) (nanosecond t),
                  String.substring 4 (String.length v - 4) v)
        | _ => None
        end
  | stdZeroMonth =>
      '(n, v') ← getnum v true;
      if (n <=? 0)%Z || (12 <? n)%Z then None
      else Some (mkTime (year t) n (day t) (hour t) (minute t) (second t)
                   (nanosecond t), v')
  | stdZeroDay =>
      '(n, v') ← getnum v true;
      Some (mkTime (year t) (month t) n (hour t) (minute t) (second t)
              (nanosecond t), v')
  | stdHour =>
      '(n, v') ← getnum v false;
      if (n <? 0)%Z || (24 <=? n)%Z then None
      else Some (mkTime (year t) (month t) (day t) n (minute t) (second t)
                   (nanosecond t), v')
  | stdZeroMinute =>
      '(n, v') ← getnum v true;
      if (n <? 0)%Z || (60 <=? n)%Z then None
      else Some (mkTime (year t) (month t) (day t) (hour t) n (second t)
                   (nanosecond t), v')
  | stdZeroSecond =>
      '(n, v') ← getnum v true;
      if (n <? 0)%Z || (60 <=? n)%Z then None
      else
        let '(ns, v'') := fractionalSecond v' in
        Some (mkTime (year t) (month t) (day t) (hour t) (minute t) n ns, v'')
  end.

Fixpoint parseChunks (layout : list chunk) (t : Time) (v : string)
  : option Time :=
  match layout with
  | [] => if bool_decide (v = "") then Some t else None
  | c :: layout' =>
      '(t', v') ← parseChunk c t v;
      parseChunks layout' t' v'
  end.

(** [time.ParseInLocation(layout, value, time.UTC)]: [None] is a non-nil
    error.  Month and day default to 1 when the layout does not read
    them, and the day is checked against the month at the end. *)
Definition ParseInLocation (layout : list chunk) (v : string) : option Time :=
  t ← parseChunks layout (mkTime 0 (-1) (-1) 0 0 0 0) v;
  let m := if (month t <? 0)%Z then 1%Z else month t in
  let d := if (day t <? 0)%Z then 1%Z else day t in
  if (d <? 1)%Z || (daysIn m (year t) <? d)%Z then None
  else Some (mkTime (year t) m d (hour t) (minute t) (second t)
               (nanosecond t)).

(** Modelled from the spec: the constant [iso8601compact] is declared
    outside [types.go]; the spec calls it the compact ISO-8601 basic form
    in UTC, the Go layout ["20060102T150405Z"]. *)
Definition iso8601compact : list chunk :=
  [stdLongYear; stdZeroMonth; stdZeroDay; literal "T";
   stdHour; stdZeroMinute; stdZeroSecond; literal "Z"].

(** The layout ["2006-01-02T15:04:05Z"] of the other copy of the file. *)
Definition iso8601extended : list chunk :=
  [stdLongYear; literal "-"; stdZeroMonth; literal "-"; stdZeroDay;
   literal "T"; stdHour; literal ":"; stdZeroMinute; literal ":";
   stdZeroSecond; literal "Z"].

(** ** Base64 (RFC 4648, standard alphabet, padded)

    [encoding/json] writes a [[]byte] as a base64 string and reads it
    back the same way.  Three bytes are regrouped into four sextets. *)

Module base64.

Definition sextet : Type := bool * bool * bool * bool * bool * bool.

Definition alphabet : string :=
  "ABCDEFGHIJKLMNOPQRSTUVWXYZabcdefghijklmnopqrstuvwxyz0123456789+/".

Definition b2n (b : bool) : nat := if b then 1 else 0.

(** Most significant bit first. *)
Definition index (s : sextet) : nat :=
  let '(x5, x4, x3, x2, x1, x0) := s in
  32 * b2n x5 + 16 * b2n x4 + 8 * b2n x3 + 4 * b2n x2 + 2 * b2n x1 + b2n x0.

Definition of_index (n : nat) : sextet :=
  (Nat.testbit n 5, Nat.testbit n 4, Nat.testbit n 3,
   Nat.testbit n 2, Nat.testbit n 1, Nat.testbit n 0).

Definition char (s : sextet) : ascii :=
  default "="%char (String.get (index s) alphabet).

Definition of_char (c : ascii) : option sextet :=
  let n := nat_of_ascii c in
  if ((65 <=? n) && (n <=? 90))%nat then Some (of_index (n - 65))
  else if ((97 <=? n) && (n <=? 122))%nat then Some (of_index (n - 97 + 26))
  else if ((48 <=? n) && (n <=? 57))%nat then Some (of_index (n - 48 + 52))
  else if (n =? 43)%nat then Some (of_index 62)
  else if (n =? 47)%nat then Some (of_index 63)
  else None.

Definition pad : ascii := "="%char.

Definition split3 (a b c : byte) : sextet * sextet * sextet * sextet :=
  let '(Ascii a0 a1 a2 a3 a4 a5 a6 a7) := ascii_of_byte a in
  let '(Ascii b0 b1 b2 b3 b4 b5 b6 b7) := ascii_of_byte b in
  let '(Ascii c0 c1 c2 c3 c4 c5 c6 c7) := ascii_of_byte c in
  ((a7, a6, a5, a4, a3, a2), (a1, a0, b7, b6, b5, b4),
   (b3, b2, b1, b0, c7, c6), (c5, c4, c3, c2, c1, c0)).

Definition join3 (s1 s2 s3 s4 : sextet) : byte * byte * byte :=
  let '(a7, a6, a5, a4, a3, a2) := s1 in
  let '(a1, a0, b7, b6, b5, b4) := s2 in
  let '(b3, b2, b1, b0, c7, c6) := s3 in
  let '(c5, c4, c3, c2, c1, c0) := s4 in
  (byte_of_ascii (Ascii a0 a1 a2 a3 a4 a5 a6 a7),
   byte_of_ascii (Ascii b0 b1 b2 b3 b4 b5 b6 b7),
   byte_of_ascii (Ascii c0 c1 c2 c3 c4 c5 c6 c7)).

Definition zero : byte := byte_of_ascii Ascii.zero.

Fixpoint encode (bs : list byte) : string :=
  match bs with
  | [] => ""
  | [a] =>
      let '(s1, s2, _, _) := split3 a zero zero in
      String (char s1) (String (char s2) (String pad (String pad "")))
  | [a; b] =>
      let '(s1, s2, s3, _) := split3 a b zero in
      String (char s1) (String (char s2) (String (char s3) (String pad "")))
  | a :: b :: c :: rest =>
      let '(s1, s2, s3, s4) := split3 a b c in
      String (char s1) (String (char s2) (String (char s3)
        (String (char s4) (encode rest))))
  end.

(** The trailing bits of a padded group are not checked (the decoder is
    not in strict mode). *)
Fixpoint decode (s : string) : option (list byte) :=
  match s with
  | EmptyString => Some []
  | String c1 (String c2 (String c3 (String c4 rest))) =>
      s1 ← of_char c1;
      s2 ← of_char c2;
      if bool_decide (c4 = pad) then
        if bool_decide (rest = "") then
          if bool_decide (c3 = pad) then
            let '(a, _, _) := join3 s1 s2 (of_index 0) (of_index 0) in
            Some [a]
          else
            s3 ← of_char c3;
            let '(a, b, _) := join3 s1 s2 s3 (of_index 0) in
            Some [a; b]
        else None
      else
        s3 ← of_char c3;
        s4 ← of_char c4;
        let '(a, b, c) := join3 s1 s2 s3 s4 in
        (λ bs, a :: b :: c :: bs) <$> decode rest
  | _ => None
  end.

End base64.

(** ** [encoding/json] on generic values

    What [json.Unmarshal] stores in an [interface{}]: nil, bool, float64,
    string, [[]interface{}] and [map[string]interface{}].  No function of
    the library looks inside a float64, which is kept as its literal. *)

Inductive JSON :=
| JNull
| JBool (b : bool)
| JNumber (lit : string)
| JString (s : string)
| JArray (l : list JSON)
| JObject (m : gmap string JSON).

(** A byte buffer is identified with what the JSON reader makes of it:
    bytes that are not a JSON text, or the text of one JSON value (an
    object being read as the map of its members, strings as their
    content). *)
Inductive buffer :=
| notJSON
| text (j : JSON).

Inductive json_error := SyntaxError | UnmarshalTypeError.

(** [json.Unmarshal(buf, &raw)] for [raw] of type
    [map[string]interface{}]; [None] is the nil map.  The members of an
    object are stored into the map (allocated when nil); the text [null]
    sets the map to nil and is no error; any other value cannot be stored
    in a map. *)
Definition json_Unmarshal (buf : buffer) (raw : option (gmap string JSON))
  : option (gmap string JSON) * option json_error :=
  match buf with
  | notJSON => (raw, Some SyntaxError)
  | text (JObject m) => (Some (m ∪ default ∅ raw), None)
  | text JNull => (None, None)
  | text _ => (raw, Some UnmarshalTypeError)
  end.

Definition isObjectText (buf : buffer) : bool :=
  match buf with text (JObject _) => true | _ => false end.

(** *** UTF-8 as [json.Marshal] sees it

    The encoder walks a string rune by rune ([utf8.DecodeRuneInString]);
    a byte that does not start a well-formed sequence is written as the
    escape of U+FFFD, which reads back as the three bytes [EF BF BD]; all
    other runes read back as they were. *)

Module utf8.

(** The table [first] of package [utf8]: for a lead byte at or above
    [0x80], the length of the sequence and the range accepted for its
    second byte; [None] for a byte that cannot lead. *)
Definition lead (b : N) : option (N * N * N) :=
  if (b <? 194)%N then None
  else if (b <=? 223)%N then Some (2, 128, 191)%N
  else if (b =? 224)%N then Some (3, 160, 191)%N
  else if (b <=? 236)%N then Some (3, 128, 191)%N
  else if (b =? 237)%N then Some (3, 128, 159)%N
  else if (b <=? 239)%N then Some (3, 128, 191)%N
  else if (b =? 240)%N then Some (4, 144, 191)%N
  else if (b <=? 243)%N then Some (4, 128, 191)%N
  else if (b =? 244)%N then Some (4, 128, 143)%N
  else None.

Definition between (lo hi : N) (c : ascii) : bool :=
  (lo <=? N_of_ascii c)%N && (N_of_ascii c <=? hi)%N.

Definition cont (c : ascii) : bool := between 128 191 c.

(** The length of the rune at the head of a non-empty string; [None] is
    [RuneError] of width 1. *)
Definition runeLen (s : string) : option nat :=
  match s with
  | EmptyString => None
  | String b0 s1 =>
      if (N_of_ascii b0 <? 128)%N then Some 1
      else
        match lead (N_of_ascii b0), s1 with
        | Some (sz, lo, hi), String b1 s2 =>
            if negb (between lo hi b1) then None
            else if (sz <=? 2)%N then Some 2
            else
              match s2 with
              | String b2 s3 =>
                  if negb (cont b2) then None
                  else if (sz <=? 3)%N then Some 3
                  else
                    match s3 with
                    | String b3 _ => if cont b3 then Some 4 else None
                    | EmptyString => None
                    end
              | EmptyString => None
              end
        | _, _ => None
        end
  end.

(** U+FFFD in UTF-8, in front of [rest]. *)
Definition replacement (rest : string) : string :=
  String (ascii_of_N 239) (String (ascii_of_N 191)
    (String (ascii_of_N 189) rest)).

(** The string read back from what the encoder writes for [s]. *)
Fixpoint sanitize (s : string) : string :=
  match s with
  | EmptyString => EmptyString
  | String b0 s1 =>
      match runeLen s, s1 with
      | Some 1, _ => String b0 (sanitize s1)
      | Some 2, String b1 s2 => String b0 (String b1 (sanitize s2))
      | Some 3, String b1 (String b2 s3) =>
          String b0 (String b1 (String b2 (sanitize s3)))
      | Some 4, String b1 (String b2 (String b3 s4)) =>
          String b0 (String b1 (String b2 (String b3 (sanitize s4))))
      | _, _ => replacement (sanitize s1)
      end
  end.

(** A string the encoder leaves as it is. *)
Definition valid (s : string) : bool := bool_decide (sanitize s = s).

End utf8.

(** The member names of a map as they are read back: the encoder writes
    the members in the order of their names and each name through
    [utf8.sanitize]; when two names come out the same, the reader keeps
    the member written last, the one with the greater name. *)
Definition sanitizeKeys {A} (m : gmap string A) : gmap string A :=
  snd <$>
    map_fold
      (λ k x (acc : gmap string (string * A)),
         match acc !! utf8.sanitize k with
         | Some (k0, _) =>
             if String.ltb k k0 then acc
             else <[utf8.sanitize k := (k, x)]> acc
         | None => <[utf8.sanitize k := (k, x)]> acc
         end)
      ∅ m.

(** A generic value as it is read back from the text written for it. *)
Fixpoint sanitizeJSON (j : JSON) : JSON :=
  match j with
  | JString s => JString (utf8.sanitize s)
  | JArray l => JArray (sanitizeJSON <$> l)
  | JObject m => JObject (sanitizeKeys (sanitizeJSON <$> m))
  | _ => j
  end.

(** [json.Marshal(output)] for a map of generic values: never an error;
    the text is that of the map with its strings and member names passed
    through the encoder. *)
Definition json_Marshal (output : gmap string JSON)
  : buffer * option json_error :=
  (text (sanitizeJSON (JObject output)), None).

(** ** The wire codec *)

Inductive discriminator :=
| DS | DN | DB | DBOOL | DNULL | DSS | DNS | DBS | DL | DM.

Definition discriminator_text (t : discriminator) : string :=
  match t with
  | DS => "S" | DN => "N" | DB => "B" | DBOOL => "BOOL" | DNULL => "NULL"
  | DSS => "SS" | DNS => "NS" | DBS => "BS" | DL => "L" | DM => "M"
  end.

Definition discriminator_of_text (s : string) : option discriminator :=
  if bool_decide (s = "S") then Some DS
  else if bool_decide (s = "N") then Some DN
  else if bool_decide (s = "B") then Some DB
  else if bool_decide (s = "BOOL") then Some DBOOL
  else if bool_decide (s = "NULL") then Some DNULL
  else if bool_decide (s = "SS") then Some DSS
  else if bool_decide (s = "NS") then Some DNS
  else if bool_decide (s = "BS") then Some DBS
  else if bool_decide (s = "L") then Some DL
  else if bool_decide (s = "M") then Some DM
  else None.

(** The wire node [{discriminator: payload}]. *)
Definition node (t : discriminator) (payload : JSON) : JSON :=
  JObject {[ discriminator_text t := payload ]}.

Definition isnil (v : value) : bool :=
  match v with VNil => true | _ => false end.

(** Emptiness as section 4.2 words it: (a) a nil value, (b) a zero-length
    string, sequence, set or map, (c) the zero value of its kind. *)
Definition isZeroOfKind (v : value) : bool :=
  match v with
  | VNil => true
  | VString s | VNumber s => bool_decide (s = "")
  | VBool b => negb b
  | VBinary b => bool_decide (b = [])
  | VStringSet l | VNumberSet l => bool_decide (l = [])
  | VBinarySet l => bool_decide (l = [])
  | VList l => bool_decide (l = [])
  | VDocument d => bool_decide (d = ∅)
  end.

Definition hasLength (v : value) : bool :=
  match v with VNil | VBool _ => false | _ => true end.

Definition spec_isEmpty (v : value) : bool :=
  isnil v || (hasLength v && Nat.eqb (Len v) 0) || isZeroOfKind v.

(** The two ways a part is left out: by the test of the code, and by the
    rule of section 4.2. *)
Definition skipEmpty {A} (enc : value → A) (v : value) : option A :=
  if isEmptyValue v then None else Some (enc v).

Definition skipSpecEmpty {A} (enc : value → A) (v : value) : option A :=
  if spec_isEmpty v then None else Some (enc v).

(** Modelled from the spec: [wireEncode] is declared outside [types.go].
    Section 4.2: a value is wrapped as [{discriminator: payload}]; String
    as [S], Number as [N] with its text unmodified, Binary as [B] in
    base64, Bool as [BOOL], the nil marker as [{"NULL": true}], the three
    sets as [SS]/[NS]/[BS] with each element raw, a List as [L] with each
    element wrapped recursively and empty elements skipped, a Document as
    [M] with empty fields skipped.  The emptiness rule is that of the
    same section, [spec_isEmpty]. *)
Fixpoint wireEncode (v : value) : JSON :=
  match v with
  | VString s => node DS (JString s)
  | VNumber n => node DN (JString n)
  | VBinary b => node DB (JString (base64.encode b))
  | VBool b => node DBOOL (JBool b)
  | VNil => node DNULL (JBool true)
  | VStringSet ss => node DSS (JArray (JString <$> ss))
  | VNumberSet ns => node DNS (JArray (JString <$> ns))
  | VBinarySet bs =>
      node DBS (JArray ((λ b, JString (base64.encode b)) <$> bs))
  | VList l => node DL (JArray (omap (skipSpecEmpty wireEncode) l))
  | VDocument d => node DM (JObject (omap (skipSpecEmpty wireEncode) d))
  end.

Definition asString (j : JSON) : option string :=
  match j with JString s => Some s | _ => None end.

Definition asBinary (j : JSON) : option (list byte) :=
  match j with JString s => base64.decode s | _ => None end.

(** All fields decoded, or none. *)
Definition map_sequence {A} (m : gmap string (option A))
  : option (gmap string A) :=
  if bool_decide (map_Forall (λ _ o, is_Some o) m)
  then Some (omap id m) else None.

(** The single member of a one-member object. *)
Definition soleMember {A} (m : gmap string A) : option (string * A) :=
  match map_to_list m with
  | [kv] => Some kv
  | _ => None
  end.

(** Modelled from the spec: [wireDecode] is declared outside [types.go].
    Section 4.3: the single discriminator key of the node selects the
    reading of its payload; [S] a string, [N] a Number holding the text
    verbatim, [B] the bytes of the base64 text, [BOOL] a bool, [NULL] the
    nil marker, [SS]/[NS]/[BS] the wire strings retyped as the matching
    set (a binary element being read as a [B] payload is), [L] the decoded
    elements, [M] a new Document of the decoded fields.  A node with no
    key, several keys or an unknown key, or a payload of the wrong shape,
    is a decode failure ([None]).

    Each member is first paired with its reading under every
    discriminator, so that the recursion is on the members of the node. *)
Fixpoint wireDecode (w : JSON) : option value :=
  match w with
  | JObject members =>
      let readings :=
        (λ payload (t : discriminator),
           match t with
           | DS => VString <$> asString payload
           | DN => VNumber <$> asString payload
           | DB => VBinary <$> asBinary payload
           | DBOOL =>
               match payload with JBool b => Some (VBool b) | _ => None end
           | DNULL => Some VNil
           | DSS =>
               match payload with
               | JArray l => VStringSet <$> mapM asString l
               | _ => None
               end
           | DNS =>
               match payload with
               | JArray l => VNumberSet <$> mapM asString l
               | _ => None
               end
           | DBS =>
               match payload with
               | JArray l => VBinarySet <$> mapM asBinary l
               | _ => None
               end
           | DL =>
               match payload with
               | JArray l => VList <$> mapM wireDecode l
               | _ => None
               end
           | DM =>
               match payload with
               | JObject fields =>
                   VDocument <$> map_sequence (wireDecode <$> fields)
               | _ => None
               end
           end) <$> members in
      '(key, reading) ← soleMember readings;
      t ← discriminator_of_text key;
      reading t
  | _ => None
  end.

(** ** [Document] and its methods *)

(** [d[key]]: the nil interface when the key is absent (also on a nil
    map). *)
Definition index (d : Document) (key : string) : value :=
  default VNil (d !! key).

(** The fields [MarshalJSON] hands to [json.Marshal]: the loop over [d]
    that fills [output]. *)
Definition MarshalJSON_output (d : Document) : gmap string JSON :=
  map_fold
    (λ key val output,
       if negb (isEmptyValue val) then <[key := wireEncode val]> output
       else output)
    ∅ d.

Definition MarshalJSON (d : Document) : buffer * option json_error :=
  json_Marshal (MarshalJSON_output d).

(** The loop [dd[key] = wireDecode(val)].  [wireDecode] returns one value,
    so a decode failure can only abort the call; what the map holds then
    depends on the iteration order and is not modelled. *)
Definition UnmarshalJSON_loop (raw : gmap string JSON) (dd : Document)
  : result Document :=
  map_fold
    (λ key val acc,
       do dd <- acc;
       match wireDecode val with
       | Some v => Returned (<[key := v]> dd)
       | None => Panicked CodecFailure
       end)
    (Returned dd) raw.

(** [d] is a pointer to a map: the state is the map it points to, [None]
    for the nil map.  The call returns the new state and the error. *)
Definition UnmarshalJSON (d : option Document) (buf : buffer)
  : result (option Document * option json_error) :=
  let '(raw, err) := json_Unmarshal buf (Some ∅) in
  match err with
  | Some e => Returned (d, Some e)
  | None =>
      let d := match d with None => Some ∅ | Some _ => d end in
      let dd := default ∅ d in
      do dd' <- UnmarshalJSON_loop (default ∅ raw) dd;
      Returned (Some dd', None)
  end.

(** Type assertions [x.(T)]. *)
Definition assertString (x : value) : result string :=
  match x with
  | VString s => Returned s
  | _ => Panicked (TypeAssertionError (TypeOf x) TString)
  end.

Definition assertNumber (x : value) : result Number :=
  match x with
  | VNumber n => Returned n
  | _ => Panicked (TypeAssertionError (TypeOf x) TNumber)
  end.

Definition assertStringSet (x : value) : result StringSet :=
  match x with
  | VStringSet ss => Returned ss
  | _ => Panicked (TypeAssertionError (TypeOf x) TStringSet)
  end.

Definition assertList (x : value) : result List :=
  match x with
  | VList l => Returned l
  | _ => Panicked (TypeAssertionError (TypeOf x) TList)
  end.

Definition GetString (d : Document) (key : string) : result string :=
  if negb (isnil (index d key)) then assertString (index d key)
  else Returned "".

Definition GetNumber (d : Document) (key : string) : result Number :=
  if negb (isnil (index d key)) then assertNumber (index d key)
  else Returned "".

Definition GetStringSet (d : Document) (key : string) : result StringSet :=
  if negb (isnil (index d key)) then assertStringSet (index d key)
  else Returned [].

Definition GetList (d : Document) (key : string) : result List :=
  if negb (isnil (index d key)) then assertList (index d key)
  else Returned [].

(** The result is a [*time.Time]: [None] is the nil pointer. *)
Definition GetTime (d : Document) (key : string) : result (option Time) :=
  let val := index d key in
  if negb (isnil val) then
    do s <- assertString val;
    match ParseInLocation iso8601compact s with
    | None => Panicked (ParseError s)
    | Some parsed => Returned (Some parsed)
    end
  else Returned None.

Definition GetBool (d : Document) (key : string) : result bool :=
  if negb (isnil (index d key)) then
    do number <- assertNumber (index d key);
    let '(res, _) := IntVal number in
    if (res =? 1)%Z then Returned true else Returned false
  else Returned false.

(** The other copy of the file reads the time through [GetString] and
    turns a parse error into nil. *)
Module Part001.

Definition GetTime (d : Document) (key : string) : result (option Time) :=
  do iso8601 <- GetString d key;
  match ParseInLocation iso8601extended iso8601 with
  | None => Returned None
  | Some t => Returned (Some t)
  end.

End Part001.

(** ** Parameters *)

Record Param := mkParam { Key : string; Value : value }.

Class Params (A : Type) := AsParams : A → list Param.

Global Instance Param_Params : Params Param := λ p, [p].

(** The order of the fields of a map is unspecified; the model takes the
    order of [map_to_list]. *)
Global Instance Document_Params : Params Document :=
  λ d, (λ kv, mkParam kv.1 kv.2) <$> map_to_list d.

Definition HashKey (name : string) (v : value) : Document :=
  {[ name := v ]}.

Definition HashRangeKey (hashName : string) (hashVal : value)
  (rangeName : string) (rangeVal : value) : Document :=
  <[rangeName := rangeVal]> {[ hashName := hashVal ]}.

(** ** The query builder

    The request and its builder methods.  [Client], [CapacityDetail] and
    the embedded [expressionAttributes] are declared in other files and
    are left as type parameters; the three methods that go through
    [paramsHelper] are declared there too and are not modelled.  Every
    method has a value receiver and returns the address of its own
    modified copy: the query it is called on is not changed. *)

Record queryRequest (CapacityDetail expressionAttributes : Type) :=
  mkQueryRequest {
    TableName : string;
    IndexName : string;
    KeyConditionExpression : string;
    FilterExpression : string;
    ProjectionExpression : string;
    attributes : expressionAttributes;
    ReturnConsumedCapacity : CapacityDetail;
    ConsistentRead : option bool;
    ScanIndexForward : option bool;
    Limit : N
  }.
Arguments mkQueryRequest {_ _}.
Arguments TableName {_ _}.
Arguments IndexName {_ _}.
Arguments KeyConditionExpression {_ _}.
Arguments FilterExpression {_ _}.
Arguments ProjectionExpression {_ _}.
Arguments attributes {_ _}.
Arguments ReturnConsumedCapacity {_ _}.
Arguments ConsistentRead {_ _}.
Arguments ScanIndexForward {_ _}.
Arguments Limit {_ _}.

Record Query (Client CapacityDetail expressionAttributes : Type) :=
  mkQuery {
    client : Client;
    req : queryRequest CapacityDetail expressionAttributes
  }.
Arguments mkQuery {_ _ _}.
Arguments client {_ _ _}.
Arguments req {_ _ _}.

Section QueryBuilder.
Context {Client CapacityDetail expressionAttributes : Type}.

Local Abbreviation Query' := (Query Client CapacityDetail expressionAttributes).

(** [newQuery]: every field but the table name has its zero value; the
    zero values of the two foreign types are given. *)
Definition newQuery (zeroAttributes : expressionAttributes)
  (zeroCapacity : CapacityDetail) (c : Client) (table : string) : Query' :=
  mkQuery c
    (mkQueryRequest table "" "" "" "" zeroAttributes zeroCapacity
       None None 0%N).

Definition Query_IndexName (q : Query') (name : string) : Query' :=
  let r := req q in
  mkQuery (client q)
    (mkQueryRequest (TableName r) name (KeyConditionExpression r)
       (FilterExpression r) (ProjectionExpression r) (attributes r)
       (ReturnConsumedCapacity r) (ConsistentRead r) (ScanIndexForward r)
       (Limit r)).

Definition Query_ConsistentRead (q : Query') (strong : bool) : Query' :=
  let r := req q in
  mkQuery (client q)
    (mkQueryRequest (TableName r) (IndexName r) (KeyConditionExpression r)
       (FilterExpression r) (ProjectionExpression r) (attributes r)
       (ReturnConsumedCapacity r) (Some strong) (ScanIndexForward r)
       (Limit r)).

Definition Query_KeyConditionExpression (q : Query') (expression : string)
  : Query' :=
  let r := req q in
  mkQuery (client q)
    (mkQueryRequest (TableName r) (IndexName r) expression
       (FilterExpression r) (ProjectionExpression r) (attributes r)
       (ReturnConsumedCapacity r) (ConsistentRead r) (ScanIndexForward r)
       (Limit r)).

Definition Query_ProjectionExpression (q : Query') (expression : string)
  : Query' :=
  let r := req q in
  mkQuery (client q)
    (mkQueryRequest (TableName r) (IndexName r) (KeyConditionExpression r)
       (FilterExpression r) expression (attributes r)
       (ReturnConsumedCapacity r) (ConsistentRead r) (ScanIndexForward r)
       (Limit r)).

Definition Query_Desc (q : Query') : Query' :=
  let forward := false in
  let r := req q in
  mkQuery (client q)
    (mkQueryRequest (TableName r) (IndexName r) (KeyConditionExpression r)
       (FilterExpression r) (ProjectionExpression r) (attributes r)
       (ReturnConsumedCapacity r) (ConsistentRead r) (Some forward)
       (Limit r)).

Definition Query_Limit (q : Query') (limit : N) : Query' :=
  let r := req q in
  mkQuery (client q)
    (mkQueryRequest (TableName r) (IndexName r) (KeyConditionExpression r)
       (FilterExpression r) (ProjectionExpression r) (attributes r)
       (ReturnConsumedCapacity r) (ConsistentRead r) (ScanIndexForward r)
       limit).

(** One call of a builder method, and a chain of calls. *)
Inductive builderCall :=
| callIndexName (name : string)
| callConsistentRead (strong : bool)
| callKeyConditionExpression (expression : string)
| callProjectionExpression (expression : string)
| callDesc
| callLimit (limit : N).

Definition call (q : Query') (c : builderCall) : Query' :=
  match c with
  | callIndexName name => Query_IndexName q name
  | callConsistentRead strong => Query_ConsistentRead q strong
  | callKeyConditionExpression e => Query_KeyConditionExpression q e
  | callProjectionExpression e => Query_ProjectionExpression q e
  | callDesc => Query_Desc q
  | callLimit limit => Query_Limit q limit
  end.

Definition sameMethod (c1 c2 : builderCall) : bool :=
  match c1, c2 with
  | callIndexName _, callIndexName _
  | callConsistentRead _, callConsistentRead _
  | callKeyConditionExpression _, callKeyConditionExpression _
  | callProjectionExpression _, callProjectionExpression _
  | callDesc, callDesc
  | callLimit _, callLimit _ => true
  | _, _ => false
  end.

End QueryBuilder.

(** ** Notions used in the statements *)

(** The number of constructors of a value; recursion measure. *)
Fixpoint value_size (v : value) : nat :=
  match v with
  | VList l => S (foldr (λ x n, value_size x + n) 0 l)
  | VDocument d => S (map_fold (λ _ x n, value_size x + n) 0 d)
  | _ => 1
  end.

(** A value keeps all its parts on the wire: no element of a list and no
    field of a document inside it, at any depth, is empty by the rule of
    section 4.2. *)
Fixpoint keepsAll (v : value) : bool :=
  match v with
  | VList l =>
      forallb (λ x, negb (spec_isEmpty x) && keepsAll x) l
  | VDocument d =>
      map_fold (λ _ x ok, negb (spec_isEmpty x) && keepsAll x && ok) true d
  | _ => true
  end.

(** Every string inside a value, field names included, is one
    [json.Marshal] leaves as it is. *)
Fixpoint validText (v : value) : bool :=
  match v with
  | VString s | VNumber s => utf8.valid s
  | VStringSet l | VNumberSet l => forallb utf8.valid l
  | VList l => forallb validText l
  | VDocument d =>
      map_fold (λ k x ok, utf8.valid k && validText x && ok) true d
  | _ => true
  end.

(** Decimal notation: a string of digits and the integer it denotes,
    read from the left with an accumulator. *)
Fixpoint allDigits (s : string) : bool :=
  match s with
  | EmptyString => true
  | String c s' => bool_decide (is_Some (digit c)) && allDigits s'
  end.

Fixpoint decimal (s : string) (acc : Z) : Z :=
  match s with
  | EmptyString => acc
  | String c s' => decimal s' (acc * 10 + digit0 c)%Z
  end.

(** The digit 1 after [j] zeros. *)
Fixpoint zerosOne (j : nat) : string :=
  match j with
  | 0 => "1"
  | S j' => String "0" (zerosOne j')
  end.

(** A calendar time of day in UTC with all its fields in range. *)
Definition validTime (t : Time) : Prop :=
  (0 ≤ year t ≤ 9999)%Z ∧ (1 ≤ month t ≤ 12)%Z
  ∧ (1 ≤ day t ≤ daysIn (month t) (year t))%Z
  ∧ (0 ≤ hour t < 24)%Z ∧ (0 ≤ minute t < 60)%Z ∧ (0 ≤ second t < 60)%Z
  ∧ (0 ≤ nanosecond t < 10 ^ 9)%Z.

(** The compact text of a time: four digits of year, two of month and
    day, [T], two digits each of hour, minute and second, [Z]. *)
Definition digitChar (n : Z) : ascii := ascii_of_N (Z.to_N (48 + n)).

Definition pad2 (n : Z) (rest : string) : string :=
  String (digitChar (n / 10)) (String (digitChar (n mod 10)) rest).

Definition formatCompact (t : Time) : string :=
  String (digitChar (year t / 1000))
    (String (digitChar (year t / 100 mod 10))
       (pad2 (year t mod 100)
          (pad2 (month t)
             (pad2 (day t)
                (String "T"
                   (pad2 (hour t)
                      (pad2 (minute t) (pad2 (second t) "Z")))))))).

(** What holds of the fields while a text is being parsed: the month may
    still be unread and the day is not checked yet. *)
Definition partialTime (t : Time) : Prop :=
  (0 ≤ year t ≤ 9999)%Z ∧ (month t = (-1)%Z ∨ 1 ≤ month t ≤ 12)%Z
  ∧ (0 ≤ hour t < 24)%Z ∧ (0 ≤ minute t < 60)%Z ∧ (0 ≤ second t < 60)%Z
  ∧ (0 ≤ nanosecond t < 10 ^ 9)%Z.

(** * Properties *)

(** ** The standard-library models on known inputs *)

Example parse_compact :
  ParseInLocation iso8601compact "20150314T092653Z"
  = Some (mkTime 2015 3 14 9 26 53 0).
Proof. reflexivity. Qed.

Example parse_compact_feb30 :
  ParseInLocation iso8601compact "20150230T092653Z" = None.
Proof. reflexivity. Qed.

Example parse_extended :
  ParseInLocation iso8601extended "2015-03-14T09:26:53Z"
  = Some (mkTime 2015 3 14 9 26 53 0).
Proof. reflexivity. Qed.

Example Atoi_examples :
  Atoi "1" = (1%Z, None) ∧ Atoi "+01" = (1%Z, None)
  ∧ Atoi "-1" = ((-1)%Z, None) ∧ Atoi "abc" = (0%Z, Some ErrSyntax)
  ∧ Atoi "" = (0%Z, Some ErrSyntax)
  ∧ Atoi "99999999999999999999" = ((2 ^ 63 - 1)%Z, Some ErrRange).
Proof. repeat split; reflexivity. Qed.

(** ** Base64 decoding inverts encoding *)

Module base64_facts.
Import base64.

Example encode_Man : encode (map byte_of_ascii (list_ascii_of_string "Man"))
                     = "TWFu".
Proof. reflexivity. Qed.

Example encode_Ma : encode (map byte_of_ascii (list_ascii_of_string "Ma"))
                    = "TWE=".
Proof. reflexivity. Qed.

Example encode_M : encode (map byte_of_ascii (list_ascii_of_string "M"))
                   = "TQ==".
Proof. reflexivity. Qed.

Example decode_light :
  decode "bGlnaHQgdw=="
  = Some (map byte_of_ascii (list_ascii_of_string "light w")).
Proof. reflexivity. Qed.

Lemma of_char_char (s : sextet) : of_char (char s) = Some s.
Proof.
  destruct s as [[[[[x5 x4] x3] x2] x1] x0].
  destruct x5, x4, x3, x2, x1, x0; reflexivity.
Qed.

Lemma char_not_pad (s : sextet) : char s ≠ pad.
Proof.
  destruct s as [[[[[x5 x4] x3] x2] x1] x0].
  destruct x5, x4, x3, x2, x1, x0; discriminate.
Qed.

Lemma join3_split3 (a b c : byte) :
  let '(s1, s2, s3, s4) := split3 a b c in join3 s1 s2 s3 s4 = (a, b, c).
Proof.
  rewrite <- (byte_of_ascii_of_byte a), <- (byte_of_ascii_of_byte b),
    <- (byte_of_ascii_of_byte c).
  generalize (ascii_of_byte a) (ascii_of_byte b) (ascii_of_byte c).
  intros x y z. unfold split3. rewrite !ascii_of_byte_of_ascii.
  destruct x, y, z. reflexivity.
Qed.

(** The bits a padded group drops are those of the missing bytes. *)
Lemma join3_split1 (a : byte) :
  let '(s1, s2, _, _) := split3 a zero zero in
  join3 s1 s2 (of_index 0) (of_index 0) = (a, zero, zero).
Proof.
  rewrite <- (byte_of_ascii_of_byte a). generalize (ascii_of_byte a).
  intros x. unfold split3, zero. rewrite !ascii_of_byte_of_ascii.
  destruct x. reflexivity.
Qed.

Lemma join3_split2 (a b : byte) :
  let '(s1, s2, s3, _) := split3 a b zero in
  join3 s1 s2 s3 (of_index 0) = (a, b, zero).
Proof.
  rewrite <- (byte_of_ascii_of_byte a), <- (byte_of_ascii_of_byte b).
  generalize (ascii_of_byte a) (ascii_of_byte b).
  intros x y. unfold split3, zero. rewrite !ascii_of_byte_of_ascii.
  destruct x, y. reflexivity.
Qed.

Lemma list_ind3 {A} (P : list A → Prop) :
  P [] → (∀ a, P [a]) → (∀ a b, P [a; b]) →
  (∀ a b c l, P l → P (a :: b :: c :: l)) → ∀ l, P l.
Proof.
  intros H0 H1 H2 H3.
  fix IH 1. intros [|a [|b [|c l]]].
  - exact H0.
  - apply H1.
  - apply H2.
  - apply H3, IH.
Qed.

Lemma decode_encode (bs : list byte) : decode (encode bs) = Some bs.
Proof.
  induction bs as [|a|a b|a b c rest IH] using list_ind3.
  - reflexivity.
  - pose proof (join3_split1 a) as J. cbn [encode].
    destruct (split3 a zero zero) as [[[s1 s2] s3] s4].
    cbn [decode]. rewrite !of_char_char. cbn.
    rewrite !bool_decide_eq_true_2 by done. by rewrite J.
  - pose proof (join3_split2 a b) as J. cbn [encode].
    destruct (split3 a b zero) as [[[s1 s2] s3] s4].
    cbn [decode]. rewrite !of_char_char. cbn.
    rewrite (bool_decide_eq_true_2 (pad = pad)) by done.
    rewrite (bool_decide_eq_false_2 (char s3 = pad)) by apply char_not_pad.
    rewrite bool_decide_eq_true_2 by done. by rewrite J.
  - pose proof (join3_split3 a b c) as J. cbn [encode].
    destruct (split3 a b c) as [[[s1 s2] s3] s4].
    cbn [decode]. rewrite !of_char_char. cbn.
    rewrite (bool_decide_eq_false_2 (char s4 = pad)) by apply char_not_pad.
    rewrite J, IH. reflexivity.
Qed.

End base64_facts.

(** ** Induction on values *)

Lemma value_size_elem (l : list value) (x : value) :
  x ∈ l → value_size x < value_size (VList l).
Proof.
  cbn [value_size]. induction 1 as [x l|x y l _ IH]; cbn [foldr]; lia.
Qed.

Lemma value_size_field (d : gmap string value) (k : string) (x : value) :
  d !! k = Some x → value_size x < value_size (VDocument d).
Proof.
  cbn [value_size]. revert k x.
  apply (map_fold_weak_ind
           (λ r (m : gmap string value),
              ∀ k x, m !! k = Some x → value_size x < S r)).
  - intros k x. by rewrite lookup_empty.
  - intros i y m r Hi IH k x. rewrite lookup_insert.
    case_decide; intros Hk.
    + inversion Hk; subst. lia.
    + specialize (IH k x Hk). lia.
Qed.

Lemma value_ind' (P : value → Prop) :
  P VNil → (∀ s, P (VString s)) → (∀ n, P (VNumber n)) →
  (∀ b, P (VBinary b)) → (∀ b, P (VBool b)) →
  (∀ ss, P (VStringSet ss)) → (∀ ns, P (VNumberSet ns)) →
  (∀ bs, P (VBinarySet bs)) →
  (∀ l, Forall P l → P (VList l)) →
  (∀ d, map_Forall (λ _, P) d → P (VDocument d)) →
  ∀ v, P v.
Proof.
  intros HNil HS HN HB HBool HSS HNS HBS HL HD v.
  remember (value_size v) as n eqn:Hn. revert v Hn.
  induction n as [n IH] using lt_wf_ind. intros v ->.
  destruct v; auto.
  - apply HL, Forall_forall. intros x Hx.
    apply (IH (value_size x)); [by apply value_size_elem | done].
  - apply HD. intros k x Hk.
    apply (IH (value_size x)); [by eapply value_size_field | done].
Qed.

(** ** Emptiness *)

Lemma isEmptyValue_spec (v : value) :
  isEmptyValue v = true ↔ v = VNil ∨ (hasLength v = true ∧ Len v = 0).
Proof.
  destruct v; cbn; rewrite ?Nat.eqb_eq; intuition congruence.
Qed.

Lemma isEmptyValue_Bool (b : bool) : isEmptyValue (VBool b) = false.
Proof. reflexivity. Qed.

(** The loop of [MarshalJSON] keeps exactly the non-empty fields, each
    under its wire node. *)
Lemma MarshalJSON_output_lookup (d : gmap string value) (k : string) :
  MarshalJSON_output d !! k = d !! k ≫= skipEmpty wireEncode.
Proof.
  unfold MarshalJSON_output.
  apply (map_fold_weak_ind
           (λ (r : gmap string JSON) (m : gmap string value),
              r !! k = m !! k ≫= skipEmpty wireEncode)).
  - by rewrite !lookup_empty.
  - intros i x m r Hi IH. rewrite (lookup_insert m).
    case_decide as Hik.
    + subst i. unfold skipEmpty at 1. cbn.
      destruct (isEmptyValue x); cbn.
      * by rewrite IH, Hi.
      * by rewrite lookup_insert_eq.
    + destruct (isEmptyValue x); cbn; [done|].
      by rewrite lookup_insert_ne.
Qed.

Lemma MarshalJSON_output_omap (d : gmap string value) :
  MarshalJSON_output d = omap (skipEmpty wireEncode) d.
Proof.
  apply map_eq. intros k.
  by rewrite MarshalJSON_output_lookup, lookup_omap.
Qed.

(** ** The codec on a wire node *)

Lemma soleMember_singleton {A} (k : string) (x : A) :
  soleMember ({[ k := x ]} : gmap string A) = Some (k, x).
Proof. unfold soleMember. by rewrite map_to_list_singleton. Qed.

Lemma discriminator_of_text_text (t : discriminator) :
  discriminator_of_text (discriminator_text t) = Some t.
Proof. by destruct t. Qed.

(** A well-formed node is read according to its discriminator. *)
Lemma wireDecode_node (t : discriminator) (payload : JSON) :
  wireDecode (node t payload)
  = match t with
    | DS => VString <$> asString payload
    | DN => VNumber <$> asString payload
    | DB => VBinary <$> asBinary payload
    | DBOOL => match payload with JBool b => Some (VBool b) | _ => None end
    | DNULL => Some VNil
    | DSS =>
        match payload with
        | JArray l => VStringSet <$> mapM asString l
        | _ => None
        end
    | DNS =>
        match payload with
        | JArray l => VNumberSet <$> mapM asString l
        | _ => None
        end
    | DBS =>
        match payload with
        | JArray l => VBinarySet <$> mapM asBinary l
        | _ => None
        end
    | DL =>
        match payload with
        | JArray l => VList <$> mapM wireDecode l
        | _ => None
        end
    | DM =>
        match payload with
        | JObject fields => VDocument <$> map_sequence (wireDecode <$> fields)
        | _ => None
        end
    end.
Proof.
  unfold node. cbn [wireDecode].
  rewrite map_fmap_singleton, soleMember_singleton. cbn [mbind option_bind].
  rewrite discriminator_of_text_text. by destruct t.
Qed.

Lemma map_sequence_Some {A} (m : gmap string A) :
  map_sequence (Some <$> m) = Some m.
Proof.
  unfold map_sequence. rewrite bool_decide_eq_true_2.
  - f_equal. apply map_eq. intros k.
    rewrite lookup_omap, lookup_fmap. by destruct (m !! k).
  - intros k o. rewrite lookup_fmap. destruct (m !! k); naive_solver.
Qed.

Lemma map_sequence_lookup {A} (m : gmap string (option A))
  (m' : gmap string A) (k : string) :
  map_sequence m = Some m' → m !! k = Some <$> (m' !! k).
Proof.
  unfold map_sequence. case_bool_decide as Hall; [|done].
  intros [= <-]. rewrite lookup_omap.
  destruct (m !! k) as [o|] eqn:Hk; [|done].
  destruct (Hall k o Hk) as [x ->]. done.
Qed.

Lemma map_sequence_None {A} (m : gmap string (option A)) :
  map_sequence m = None ↔ ∃ k, m !! k = Some None.
Proof.
  unfold map_sequence. case_bool_decide as Hall; split; try done.
  - intros [k Hk]. by destruct (Hall k None Hk).
  - intros _.
    destruct (proj1 (map_not_Forall (λ (_ : string) (o : option A), is_Some o)
                       m) Hall) as (k & o & Hk & Ho).
    exists k.
    destruct o as [a|]; [|done]. exfalso. apply Ho. by exists a.
Qed.

(** ** What [keepsAll] says of the parts of a value *)

Lemma keepsAll_elem (l : list value) (x : value) :
  keepsAll (VList l) = true → x ∈ l →
  spec_isEmpty x = false ∧ keepsAll x = true.
Proof.
  cbn [keepsAll]. rewrite forallb_forall. intros Hall Hx.
  apply list_elem_of_In, Hall, andb_true_iff in Hx as [Hne Hk].
  by apply negb_true_iff in Hne.
Qed.

Lemma keepsAll_field (d : gmap string value) (k : string) (x : value) :
  keepsAll (VDocument d) = true → d !! k = Some x →
  spec_isEmpty x = false ∧ keepsAll x = true.
Proof.
  cbn [keepsAll]. revert k x.
  apply (map_fold_weak_ind
           (λ (r : bool) (m : gmap string value),
              ∀ k x, r = true → m !! k = Some x →
                     spec_isEmpty x = false ∧ keepsAll x = true)).
  - intros k x _. by rewrite lookup_empty.
  - intros i y m r Hi IH k x Hr. rewrite lookup_insert.
    apply andb_true_iff in Hr as [Hy Hr].
    apply andb_true_iff in Hy as [Hne Hk].
    case_decide; intros Hkx.
    + inversion Hkx; subst. by apply negb_true_iff in Hne.
    + by apply (IH k x).
Qed.

(** ** Decoding inverts encoding *)

Lemma mapM_asBinary_encode (bs : list (list byte)) :
  mapM asBinary ((λ b, JString (base64.encode b)) <$> bs) = Some bs.
Proof.
  apply mapM_fmap_Some. intros b. cbn. apply base64_facts.decode_encode.
Qed.

Lemma mapM_asString_JString (ss : list string) :
  mapM asString (JString <$> ss) = Some ss.
Proof. by apply mapM_fmap_Some. Qed.

(** Whatever value is encoded, top-level emptiness plays no part: only the
    parts inside lists and documents are skipped. *)
Lemma wireDecode_wireEncode (v : value) :
  keepsAll v = true → wireDecode (wireEncode v) = Some v.
Proof.
  induction v as [|s|n|b|b|ss|ns|bs|l IH|d IH] using value_ind';
    intros Hk; cbn [wireEncode]; rewrite wireDecode_node;
    cbn [asString asBinary fmap option_fmap option_map].
  - done.
  - done.
  - done.
  - by rewrite base64_facts.decode_encode.
  - done.
  - by rewrite mapM_asString_JString.
  - by rewrite mapM_asString_JString.
  - by rewrite mapM_asBinary_encode.
  - assert (mapM wireDecode (omap (skipSpecEmpty wireEncode) l) = Some l)
      as ->; [|done].
    assert (∀ x, x ∈ l → spec_isEmpty x = false ∧ keepsAll x = true) as Hl
      by (intros x; by apply keepsAll_elem).
    clear Hk. induction IH as [|x l Hx _ IHl]; [done|].
    destruct (Hl x) as [Hne Hkx]; [left|].
    cbn [omap list_omap]. unfold skipSpecEmpty at 1. rewrite Hne.
    cbn. rewrite (Hx Hkx). cbn.
    rewrite IHl; [done|]. intros y Hy. apply Hl. by right.
  - assert (wireDecode <$> omap (skipSpecEmpty wireEncode) d = Some <$> d)
      as ->.
    { apply map_eq. intros k. rewrite !lookup_fmap, lookup_omap.
      destruct (d !! k) as [x|] eqn:Hx; [|done]. cbn.
      destruct (keepsAll_field d k x Hk Hx) as [Hne Hkx].
      unfold skipSpecEmpty. rewrite Hne. cbn. f_equal. by eapply IH. }
    by rewrite map_sequence_Some.
Qed.

(** ** The decoding loop *)

Lemma map_sequence_insert {A} (m : gmap string (option A)) (i : string)
  (o : option A) :
  m !! i = None →
  map_sequence (<[i := o]> m)
  = (x ← o; m' ← map_sequence m; Some (<[i := x]> m')).
Proof.
  intros Hi. unfold map_sequence.
  destruct o as [x|]; cbn.
  - case_bool_decide as H1; case_bool_decide as H2; cbn.
    + f_equal. by apply omap_insert_Some.
    + destruct H2. by apply (map_Forall_insert _ m i (Some x)) in H1 as [_ ?].
    + destruct H1. apply map_Forall_insert; [done|]. split; [by eexists|done].
    + done.
  - rewrite bool_decide_eq_false_2; [done|].
    intros H1. apply map_Forall_insert in H1 as [[? [=]] _]; done.
Qed.

(** The loop returns iff every incoming field decodes, and then with the
    decoded fields laid over the previous content. *)
Lemma UnmarshalJSON_loop_spec (raw : gmap string JSON)
  (dd : gmap string value) :
  UnmarshalJSON_loop raw dd
  = match map_sequence (wireDecode <$> raw) with
    | Some decoded => Returned (decoded ∪ dd)
    | None => Panicked CodecFailure
    end.
Proof.
  unfold UnmarshalJSON_loop.
  apply (map_fold_weak_ind
           (λ (r : result (gmap string value)) (m : gmap string JSON),
              r = match map_sequence (wireDecode <$> m) with
                  | Some decoded => Returned (decoded ∪ dd)
                  | None => Panicked CodecFailure
                  end)).
  - rewrite fmap_empty. unfold map_sequence.
    rewrite bool_decide_eq_true_2 by apply map_Forall_empty.
    by rewrite omap_empty, (left_id_L ∅ (∪)).
  - intros i w m r Hi ->. rewrite fmap_insert.
    rewrite map_sequence_insert by (by rewrite lookup_fmap, Hi).
    destruct (map_sequence (wireDecode <$> m)) as [decoded|];
      destruct (wireDecode w) as [v|]; cbn; try done.
    by rewrite insert_union_l.
Qed.

(** ** The typed accessors *)

Lemma index_absent (d : gmap string value) (k : string) :
  d !! k = None ∨ d !! k = Some VNil ↔ index d k = VNil.
Proof.
  unfold index. destruct (d !! k) as [v|]; cbn; [|naive_solver].
  split; [intros [[=]|[= ->]]; done | intros ->; by right].
Qed.

Lemma index_present (d : gmap string value) (k : string) (v : value) :
  d !! k = Some v → index d k = v.
Proof. unfold index. by intros ->. Qed.

Lemma Atoi_one_no_error (s : string) : (Atoi s).1 = 1%Z → (Atoi s).2 = None.
Proof.
  unfold Atoi. destruct (_ && _).
  - destruct s as [|c0 s']; [done|].
    destruct (if isSign c0 then s' else String c0 s'); [done|].
    destruct (atoi_digits _ _) as [n [e|]]; done.
  - unfold ParseInt. destruct s as [|c0 s']; [done|].
    destruct (ParseUint _) as [un [[]|]]; cbn [fst snd]; try done;
      repeat case_match; cbn [fst snd]; done.
Qed.

(** C6: a key that is absent, or mapped to nil, reads as the zero value
    of each accessor: the empty string, the empty Number, the empty
    StringSet, the empty List and false; none of the accessors panics. *)
Theorem accessors_default_when_absent (d : gmap string value) (k : string) :
  d !! k = None ∨ d !! k = Some VNil →
  GetString d k = Returned ""
  ∧ GetNumber d k = Returned ""
  ∧ GetStringSet d k = Returned []
  ∧ GetList d k = Returned []
  ∧ GetBool d k = Returned false.
Proof.
  intros H%index_absent.
  unfold GetString, GetNumber, GetStringSet, GetList, GetBool.
  rewrite H. cbn. done.
Qed.

Lemma accessors_default_when_absent_witness :
  GetString {[ "name" := VString "abc" ]} "age" = Returned ""
  ∧ GetNumber {[ "name" := VString "abc" ]} "age" = Returned ""
  ∧ GetStringSet {[ "name" := VString "abc" ]} "age" = Returned []
  ∧ GetList {[ "name" := VString "abc" ]} "age" = Returned []
  ∧ GetBool {[ "name" := VString "abc" ]} "age" = Returned false.
Proof.
  apply (accessors_default_when_absent {[ "name" := VString "abc" ]} "age").
  left. reflexivity.
Defined.

(** C5: when the key holds a value (not nil) whose dynamic type is not
    the one the accessor asserts, the accessor panics with the failed
    type assertion; it returns nothing, so neither a coerced value nor
    its default. *)
Theorem accessors_panic_on_wrong_kind (d : gmap string value) (k : string)
  (v : value) :
  d !! k = Some v → v ≠ VNil →
  (TypeOf v ≠ Some TString →
     GetString d k = Panicked (TypeAssertionError (TypeOf v) TString)
     ∧ GetTime d k = Panicked (TypeAssertionError (TypeOf v) TString))
  ∧ (TypeOf v ≠ Some TNumber →
     GetNumber d k = Panicked (TypeAssertionError (TypeOf v) TNumber)
     ∧ GetBool d k = Panicked (TypeAssertionError (TypeOf v) TNumber))
  ∧ (TypeOf v ≠ Some TStringSet →
     GetStringSet d k = Panicked (TypeAssertionError (TypeOf v) TStringSet))
  ∧ (TypeOf v ≠ Some TList →
     GetList d k = Panicked (TypeAssertionError (TypeOf v) TList)).
Proof.
  intros Hk Hnil.
  unfold GetString, GetTime, GetNumber, GetBool, GetStringSet, GetList.
  rewrite (index_present d k v Hk).
  destruct v; try done; cbn; repeat split; intros Hty; try done.
Qed.

Lemma accessors_panic_on_wrong_kind_witness :
  GetString {[ "n" := VNumber "5" ]} "n"
  = Panicked (TypeAssertionError (Some TNumber) TString)
  ∧ GetStringSet {[ "n" := VNumber "5" ]} "n"
    = Panicked (TypeAssertionError (Some TNumber) TStringSet)
  ∧ GetList {[ "n" := VNumber "5" ]} "n"
    = Panicked (TypeAssertionError (Some TNumber) TList).
Proof.
  destruct (accessors_panic_on_wrong_kind
              {[ "n" := VNumber "5" ]} "n" (VNumber "5"))
    as (HS & _ & HSS & HL); [reflexivity | discriminate |].
  split; [apply HS; discriminate|].
  split; [apply HSS; discriminate | apply HL; discriminate].
Defined.

(** C7: [GetBool] reads the legacy Number encoding of a boolean:
    Number("1") is true, Number("0") is false, and an absent key is
    false. *)
Theorem GetBool_legacy_encoding (d : gmap string value) (k : string) :
  (d !! k = Some (VNumber "1") → GetBool d k = Returned true)
  ∧ (d !! k = Some (VNumber "0") → GetBool d k = Returned false)
  ∧ (d !! k = None → GetBool d k = Returned false).
Proof.
  unfold GetBool, index. repeat split; intros ->; reflexivity.
Qed.

Lemma GetBool_legacy_encoding_witness :
  GetBool {[ "flag" := VNumber "1" ]} "flag" = Returned true
  ∧ GetBool {[ "flag" := VNumber "1" ]} "other" = Returned false.
Proof.
  destruct (GetBool_legacy_encoding {[ "flag" := VNumber "1" ]} "flag")
    as (H1 & _ & _).
  destruct (GetBool_legacy_encoding {[ "flag" := VNumber "1" ]} "other")
    as (_ & _ & H3).
  split; [apply H1 | apply H3]; reflexivity.
Defined.

(** C10: on a Number, [GetBool] never panics and never reports an error:
    it returns true exactly when [IntVal] yields the integer 1, which
    happens only when the text parses without error; a text that does not
    parse, or parses to another integer, gives false. *)
Theorem GetBool_swallows_parse_errors (d : gmap string value) (k : string)
  (n : string) :
  d !! k = Some (VNumber n) →
  GetBool d k = Returned (bool_decide ((IntVal n).1 = 1%Z))
  ∧ (GetBool d k = Returned true → IntVal n = (1%Z, None))
  ∧ ((IntVal n).2 ≠ None ∨ (IntVal n).1 ≠ 1%Z →
     GetBool d k = Returned false).
Proof.
  intros Hk. unfold GetBool. rewrite (index_present d k _ Hk). cbn.
  pose proof (Atoi_one_no_error n) as Hone. unfold IntVal in *.
  destruct (Atoi n) as [res e]. cbn [fst snd] in *.
  destruct (Z.eqb_spec res 1) as [->|Hne].
  - rewrite bool_decide_eq_true_2 by done.
    rewrite Hone by done. split; [done|]. split; [done|].
    intros [?|?]; done.
  - rewrite bool_decide_eq_false_2 by done. split; [done|]. split; done.
Qed.

Lemma GetBool_swallows_parse_errors_witness :
  GetBool {[ "flag" := VNumber "abc" ]} "flag" = Returned false.
Proof.
  destruct (GetBool_swallows_parse_errors
              {[ "flag" := VNumber "abc" ]} "flag" "abc") as (_ & _ & H);
    [reflexivity|].
  apply H. left. discriminate.
Defined.

(** C8: a single [Param] as [Params] is the one-element list holding
    it. *)
Theorem Param_AsParams (k : string) (v : value) :
  AsParams (mkParam k v) = [mkParam k v].
Proof. reflexivity. Qed.

(** ** [GetTime] *)

Lemma GetTime_absent (d : gmap string value) (k : string) :
  d !! k = None ∨ d !! k = Some VNil → GetTime d k = Returned None.
Proof. intros H%index_absent. unfold GetTime. by rewrite H. Qed.

Lemma GetTime_String (d : gmap string value) (k s : string) :
  d !! k = Some (VString s) →
  GetTime d k = match ParseInLocation iso8601compact s with
                | Some t => Returned (Some t)
                | None => Panicked (ParseError s)
                end.
Proof.
  intros Hk. unfold GetTime. rewrite (index_present d k _ Hk).
  reflexivity.
Qed.

(** A text that does not parse makes [GetTime] panic. *)
Lemma GetTime_malformed (d : gmap string value) (k s : string) :
  d !! k = Some (VString s) → ParseInLocation iso8601compact s = None →
  GetTime d k = Panicked (ParseError s).
Proof. intros Hk Hs. by rewrite (GetTime_String d k s Hk), Hs. Qed.

Lemma ParseInLocation_empty : ParseInLocation iso8601compact "" = None.
Proof. reflexivity. Qed.

(** C4: on a key holding the empty string, [GetTime] of [types.go] does
    not return nil: the empty text does not parse and the call panics. *)
Theorem GetTime_empty_string_panics :
  GetTime {[ "created" := VString "" ]} "created"
  = Panicked (ParseError "").
Proof. reflexivity. Qed.

(** The same holds of every document that maps the key to the empty
    string. *)
Lemma GetTime_of_empty_text (d : gmap string value) (k : string) :
  d !! k = Some (VString "") → GetTime d k = Panicked (ParseError "").
Proof. intros Hk. by apply GetTime_malformed. Qed.

(** The other copy of the file gives nil for the empty string, and for
    every other text that does not parse as well. *)
Lemma Part001_GetTime_unparsed (d : gmap string value) (k s : string) :
  d !! k = Some (VString s) → ParseInLocation iso8601extended s = None →
  Part001.GetTime d k = Returned None.
Proof.
  intros Hk Hs. unfold Part001.GetTime, GetString.
  rewrite (index_present d k _ Hk). cbn [isnil negb assertString rbind].
  by rewrite Hs.
Qed.

Lemma Part001_GetTime_absent (d : gmap string value) (k : string) :
  d !! k = None ∨ d !! k = Some VNil → Part001.GetTime d k = Returned None.
Proof.
  intros H%index_absent. unfold Part001.GetTime, GetString.
  by rewrite H.
Qed.

(** ** Empty fields on encode *)

(** C2 (as stated, refuted): the Bool false is the zero value of its
    kind, hence empty in the words of the claim, and [MarshalJSON] still
    writes the field. *)
Lemma MarshalJSON_keeps_false :
  spec_isEmpty (VBool false) = true
  ∧ MarshalJSON_output {[ "flag" := VBool false ]} !! "flag"
    = Some (node DBOOL (JBool false)).
Proof. split; reflexivity. Qed.

(** C2 (amended): [MarshalJSON] omits a field exactly when
    [isEmptyValue] holds of its value, that is when the value is nil or
    is a string, Number, byte sequence, set, list or map of length zero;
    a Bool is never omitted.  A field that is kept is written as the
    wire node of its value. *)
Theorem MarshalJSON_omits_empty (d : gmap string value) (k : string)
  (v : value) :
  d !! k = Some v →
  (MarshalJSON_output d !! k = None ↔ isEmptyValue v = true)
  ∧ (isEmptyValue v = false →
     MarshalJSON_output d !! k = Some (wireEncode v))
  ∧ (isEmptyValue v = true ↔ v = VNil ∨ (hasLength v = true ∧ Len v = 0))
  ∧ (∀ b, v = VBool b → MarshalJSON_output d !! k ≠ None).
Proof.
  intros Hk. rewrite MarshalJSON_output_lookup, Hk. cbn. unfold skipEmpty.
  split; [|split; [|split]].
  - destruct (isEmptyValue v); naive_solver.
  - by intros ->.
  - apply isEmptyValue_spec.
  - by intros b ->.
Qed.

Lemma MarshalJSON_omits_empty_witness :
  MarshalJSON_output
    {[ "name" := VString "abc"; "tags" := VStringSet [];
       "score" := VNumber "42" ]} !! "tags" = None.
Proof.
  apply (MarshalJSON_omits_empty
           {[ "name" := VString "abc"; "tags" := VStringSet [];
              "score" := VNumber "42" ]} "tags" (VStringSet []));
    reflexivity.
Defined.

(** A key the document lacks is not written either. *)
Lemma MarshalJSON_absent (d : gmap string value) (k : string) :
  d !! k = None → MarshalJSON_output d !! k = None.
Proof. intros Hk. by rewrite MarshalJSON_output_lookup, Hk. Qed.

(** ** Round trip through the wire *)

Lemma decode_fields_encode_fields (d : gmap string value) :
  keepsAll (VDocument d) = true →
  map_sequence (wireDecode <$> omap (skipSpecEmpty wireEncode) d) = Some d.
Proof.
  intros Hk. pose proof (wireDecode_wireEncode (VDocument d) Hk) as H.
  cbn [wireEncode] in H. rewrite wireDecode_node in H.
  destruct (map_sequence _) as [d'|]; [|done]. by injection H as ->.
Qed.

(** *** Strings the encoder leaves as they are *)








Lemma validText_elem (l : list value) (x : value) :
  validText (VList l) = true → x ∈ l → validText x = true.
Proof.
  cbn [validText]. rewrite forallb_forall. intros Hall Hx.
  by apply Hall, list_elem_of_In.
Qed.





(** Where the conditions matter: a field name that is not valid UTF-8
    is read back as U+FFFD, and the Bool false inside a list is skipped
    by the rule of section 4.2. *)
Example MarshalJSON_rewrites_invalid_name :
  UnmarshalJSON None
    (MarshalJSON {[ String (ascii_of_N 255) "" := VString "x" ]}).1
  = Returned (Some {[ utf8.replacement "" := VString "x" ]}, None).
Proof. reflexivity. Qed.

Example wireEncode_skips_false_element :
  wireDecode (wireEncode (VList [VBool false; VBool true]))
  = Some (VList [VBool true]).
Proof. reflexivity. Qed.




(** The two examples of section 8. *)
Example encode_example :
  MarshalJSON_output
    {[ "name" := VString "abc"; "tags" := VStringSet [];
       "score" := VNumber "42" ]}
  = {[ "name" := node DS (JString "abc");
       "score" := node DN (JString "42") ]}.
Proof. reflexivity. Qed.

Example decode_example :
  UnmarshalJSON None
    (text (JObject
       {[ "flag" := node DBOOL (JBool true);
          "list" := node DL (JArray [node DS (JString "x");
                                     node DN (JString "5")]) ]}))
  = Returned
      (Some {[ "flag" := VBool true;
               "list" := VList [VString "x"; VNumber "5"] ]}, None).
Proof. reflexivity. Qed.

(** ** Decoding into an existing document *)

Lemma UnmarshalJSON_object (d : option (gmap string value))
  (incoming : gmap string JSON) :
  UnmarshalJSON d (text (JObject incoming))
  = match map_sequence (wireDecode <$> incoming) with
    | Some decoded => Returned (Some (decoded ∪ default ∅ d), None)
    | None => Panicked CodecFailure
    end.
Proof.
  unfold UnmarshalJSON. cbn. rewrite (right_id_L ∅ (∪)).
  rewrite UnmarshalJSON_loop_spec.
  destruct (map_sequence _); [|done]. by destruct d.
Qed.

(** C3: decoding a JSON object into a document merges.  If every
    incoming field decodes, the call returns without error; and whenever
    it returns, the document is initialized (also when it was nil), every
    key outside the incoming fields maps to what it mapped to before, and
    every incoming key maps to the decoded incoming value. *)
Theorem UnmarshalJSON_merges (d : option (gmap string value))
  (incoming : gmap string JSON) :
  (map_Forall (λ _ w, is_Some (wireDecode w)) incoming →
   ∃ dd, UnmarshalJSON d (text (JObject incoming))
         = Returned (Some dd, None))
  ∧ (∀ st err,
       UnmarshalJSON d (text (JObject incoming)) = Returned (st, err) →
       err = None
       ∧ ∃ dd, st = Some dd
         ∧ (∀ k, k ∉ dom incoming → dd !! k = default ∅ d !! k)
         ∧ (∀ k w, incoming !! k = Some w →
                   ∃ v, wireDecode w = Some v ∧ dd !! k = Some v)).
Proof.
  rewrite UnmarshalJSON_object.
  destruct (map_sequence (wireDecode <$> incoming)) as [decoded|] eqn:Hseq.
  - split; [by eauto|]. intros st err [= <- <-]. split; [done|].
    exists (decoded ∪ default ∅ d). split; [done|].
    assert (∀ k, decoded !! k = incoming !! k ≫= wireDecode) as Hdec.
    { intros k. pose proof (map_sequence_lookup _ _ k Hseq) as Hk.
      rewrite lookup_fmap in Hk.
      destruct (incoming !! k) as [w|], (decoded !! k) as [v|];
        cbn in *; congruence. }
    split.
    + intros k Hk%not_elem_of_dom. apply lookup_union_r.
      by rewrite Hdec, Hk.
    + intros k w Hk. specialize (Hdec k). rewrite Hk in Hdec. cbn in Hdec.
      destruct (wireDecode w) as [v|] eqn:Hw.
      * exists v. split; [done|]. by apply lookup_union_Some_l.
      * apply (map_sequence_lookup _ _ k) in Hseq.
        rewrite lookup_fmap, Hk, Hdec in Hseq. cbn in Hseq.
        by rewrite Hw in Hseq.
  - split; [|done]. intros Hall.
    apply map_sequence_None in Hseq as [k Hk].
    rewrite lookup_fmap in Hk.
    destruct (incoming !! k) as [w|] eqn:Hw; [|done].
    destruct (Hall k w Hw) as [v Hv]. cbn in Hk. congruence.
Qed.

(** Merging decode, on the example of section 8. *)
Lemma UnmarshalJSON_merges_witness :
  ∃ dd, UnmarshalJSON (Some {[ "a" := VString "x" ]})
          (text (JObject {[ "b" := node DS (JString "y") ]}))
        = Returned (Some dd, None)
        ∧ dd !! "a" = Some (VString "x")
        ∧ dd !! "b" = Some (VString "y").
Proof.
  destruct (UnmarshalJSON_merges (Some {[ "a" := VString "x" ]})
              {[ "b" := node DS (JString "y") ]}) as [Hret Hst].
  destruct Hret as [dd Hdd].
  { apply map_Forall_singleton. by eexists. }
  exists dd. split; [exact Hdd|].
  destruct (Hst _ _ Hdd) as (_ & dd' & [= <-] & Hframe & Hnew).
  split.
  - rewrite Hframe; [reflexivity|]. rewrite dom_singleton_L.
    intros [= ]%elem_of_singleton.
  - destruct (Hnew "b" (node DS (JString "y"))) as (v & Hv & ->);
      [reflexivity|].
    rewrite <- Hv. reflexivity.
Defined.

(** ** Buffers that are not a JSON object *)

(** C9 (as stated, refuted): the text [null] is not a JSON object, yet
    decoding it reports no error and initializes a nil document. *)
Lemma UnmarshalJSON_null_initializes :
  isObjectText (text JNull) = false
  ∧ UnmarshalJSON None (text JNull) = Returned (Some ∅, None).
Proof. split; reflexivity. Qed.

(** C9 (amended): for every buffer that is neither the text of a JSON
    object nor the text [null], decoding returns an error and leaves the
    document as it was: no key is added or changed and a nil document
    stays nil. *)
Theorem UnmarshalJSON_error_is_atomic (d : option (gmap string value))
  (buf : buffer) :
  isObjectText buf = false → buf ≠ text JNull →
  ∃ e, UnmarshalJSON d buf = Returned (d, Some e).
Proof.
  intros Hobj Hnull.
  destruct buf as [|[| | | | |m]];
    [by eexists | by destruct Hnull | by eexists.. | done].
Qed.

Lemma UnmarshalJSON_error_is_atomic_witness :
  ∃ e, UnmarshalJSON None (text (JArray [])) = Returned (None, Some e).
Proof.
  apply (UnmarshalJSON_error_is_atomic None (text (JArray [])));
    [reflexivity | discriminate].
Defined.

(** The text [null] leaves an initialized document as it was, without an
    error. *)
Lemma UnmarshalJSON_accepts_null (d : gmap string value) :
  UnmarshalJSON (Some d) (text JNull) = Returned (Some d, None).
Proof. reflexivity. Qed.

(** * Further properties of the code *)

(** ** Decimal texts: [IntVal], [Int64Val], [Uint64Val] *)

Lemma digit_range (c : ascii) (d : Z) : digit c = Some d → (0 ≤ d ≤ 9)%Z.
Proof.
  unfold digit. destruct (_ && _) eqn:H; [|done].
  intros [= <-]. apply andb_true_iff in H as [?%Z.leb_le ?%Z.leb_le]. lia.
Qed.

Lemma digit_not_sign (c : ascii) (d : Z) : digit c = Some d → isSign c = false.
Proof.
  destruct c as [[] [] [] [] [] [] [] []]; vm_compute; congruence.
Qed.

Lemma digit0_Some (c : ascii) (d : Z) : digit c = Some d → digit0 c = d.
Proof. unfold digit0. by intros ->. Qed.

Lemma decimal_ge (s : string) (acc : Z) :
  allDigits s = true → (0 ≤ acc)%Z → (acc ≤ decimal s acc)%Z.
Proof.
  revert acc. induction s as [|c s IH]; intros acc Hs Hacc; cbn; [lia|].
  cbn in Hs. apply andb_true_iff in Hs as [Hc Hs].
  apply bool_decide_eq_true in Hc as [d Hd].
  rewrite (digit0_Some c d Hd). pose proof (digit_range c d Hd).
  specialize (IH (acc * 10 + d)%Z Hs). lia.
Qed.

(** The loop of [ParseUint] on a string of digits: the denoted integer,
    or the largest [uint64] with a range error. *)
Lemma ParseUint_loop_digits (s : string) (n : Z) :
  allDigits s = true → (0 ≤ n ≤ maxUint64)%Z →
  ParseUint_loop s n
  = if (decimal s n <=? maxUint64)%Z then (decimal s n, None)
    else (maxUint64, Some ErrRange).
Proof.
  revert n. induction s as [|c s IH]; intros n Hs Hn; cbn [ParseUint_loop decimal].
  - by rewrite (proj2 (Z.leb_le _ _)) by lia.
  - cbn in Hs. apply andb_true_iff in Hs as [Hc Hs].
    apply bool_decide_eq_true in Hc as [d Hd].
    rewrite Hd, (digit0_Some c d Hd). pose proof (digit_range c d Hd).
    pose proof (decimal_ge s (n * 10 + d)%Z Hs) as Hge.
    unfold maxUint64 in *.
    change (2 ^ 64 - 1)%Z with 18446744073709551615%Z in *.
    change (18446744073709551615 / 10 + 1)%Z with 1844674407370955162%Z.
    destruct (Z.leb_spec 1844674407370955162 n).
    { rewrite (proj2 (Z.leb_gt _ _)) by lia. done. }
    destruct (Z.ltb_spec 18446744073709551615 (n * 10 + d)).
    { rewrite (proj2 (Z.leb_gt _ _)) by lia. done. }
    apply IH; [done|lia].
Qed.

(** What the loop of [ParseUint] can return on any string. *)
Lemma ParseUint_loop_result (s : string) (n : Z) :
  (0 ≤ n ≤ maxUint64)%Z →
  match ParseUint_loop s n with
  | (v, None) => (0 ≤ v ≤ maxUint64)%Z
  | (v, Some ErrSyntax) => v = 0%Z
  | (v, Some ErrRange) => v = maxUint64
  end.
Proof.
  revert n. induction s as [|c s IH]; intros n Hn; cbn [ParseUint_loop]; [done|].
  destruct (digit c) as [d|] eqn:Hd; [|done].
  pose proof (digit_range c d Hd).
  destruct (Z.leb_spec (maxUint64 / 10 + 1) n); [done|].
  destruct (Z.ltb_spec maxUint64 (n * 10 + d)); [done|].
  apply IH. lia.
Qed.

Lemma ParseUint_result (s : string) :
  match ParseUint s with
  | (v, None) => (0 ≤ v ≤ maxUint64)%Z
  | (v, Some ErrSyntax) => v = 0%Z
  | (v, Some ErrRange) => v = maxUint64
  end.
Proof.
  destruct s as [|c s]; [done|]. apply ParseUint_loop_result.
  unfold maxUint64. lia.
Qed.

Lemma ParseInt_result (s : string) :
  match ParseInt s with
  | (v, None) => (- 2 ^ 63 ≤ v ≤ 2 ^ 63 - 1)%Z
  | (v, Some ErrSyntax) => v = 0%Z
  | (v, Some ErrRange) => v = (2 ^ 63 - 1)%Z ∨ v = (- 2 ^ 63)%Z
  end.
Proof.
  destruct s as [|c0 s']; [done|]. unfold ParseInt.
  pose proof (ParseUint_result (if isSign c0 then s' else String c0 s')) as H.
  destruct (ParseUint _) as [un [[]|]]; [done| |].
  - destruct (bool_decide (c0 = "-"%char)); cbn [negb andb].
    + destruct (Z.ltb_spec (2 ^ 63) un); [by right|]. subst un.
      unfold maxUint64 in *. lia.
    + destruct (Z.leb_spec (2 ^ 63) un); [by left|]. subst un.
      unfold maxUint64 in *. lia.
  - destruct (bool_decide (c0 = "-"%char)); cbn [negb andb].
    + destruct (Z.ltb_spec (2 ^ 63) un); [by right|]. lia.
    + destruct (Z.leb_spec (2 ^ 63) un); [by left|]. lia.
Qed.

(** On at most 18 characters the fast path of [Atoi] cannot overflow and
    computes what the loop of [ParseUint] computes. *)
Lemma atoi_digits_ParseUint_loop (s : string) (n : Z) :
  (0 ≤ n)%Z → ((n + 1) * 10 ^ Z.of_nat (String.length s) ≤ 10 ^ 18)%Z →
  ParseUint_loop s n = atoi_digits s n
  ∧ match atoi_digits s n with
    | (v, None) => (0 ≤ v < 10 ^ 18)%Z
    | (v, Some e) => v = 0%Z ∧ e = ErrSyntax
    end.
Proof.
  revert n. induction s as [|c s IH]; intros n Hn Hb;
    cbn [ParseUint_loop atoi_digits String.length] in *.
  - split; [done|]. rewrite Z.pow_0_r in Hb. lia.
  - destruct (digit c) as [d|] eqn:Hd; [|done].
    pose proof (digit_range c d Hd).
    rewrite Nat2Z.inj_succ, Z.pow_succ_r in Hb by lia.
    assert (0 < 10 ^ Z.of_nat (String.length s))%Z as Hpos
      by (apply Z.pow_pos_nonneg; lia).
    assert ((n * 10 + d + 1) * 10 ^ Z.of_nat (String.length s) ≤ 10 ^ 18)%Z
      as Hb' by nia.
    assert (n * 10 + d < 10 ^ 18)%Z as Hlt by nia.
    unfold maxUint64.
    change (2 ^ 64 - 1)%Z with 18446744073709551615%Z.
    change (18446744073709551615 / 10 + 1)%Z with 1844674407370955162%Z.
    change (10 ^ 18)%Z with 1000000000000000000%Z in *.
    rewrite (proj2 (Z.leb_gt _ _)) by lia.
    rewrite (proj2 (Z.ltb_ge _ _)) by lia.
    apply IH; [lia|done].
Qed.

Lemma Atoi_ParseInt (s : string) : Atoi s = ParseInt s.
Proof.
  unfold Atoi.
  destruct ((0 <? String.length s)%nat && (String.length s <? 19)%nat)
    eqn:Hlen; [|done].
  apply andb_true_iff in Hlen as [_ Hlen%Nat.ltb_lt].
  destruct s as [|c0 s']; [done|]. unfold ParseInt.
  set (s1 := if isSign c0 then s' else String c0 s').
  assert (String.length s1 ≤ 18)%nat as Hs1.
  { unfold s1. destruct (isSign c0); cbn in *; lia. }
  assert (bool_decide (c0 = "-"%char) = true → isSign c0 = true) as Hneg.
  { unfold isSign. by intros ->. }
  destruct s1 as [|c1 s1'] eqn:Es1; [done|]. rewrite <- Es1 in *.
  assert (ParseUint s1 = ParseUint_loop s1 0) as -> by (by rewrite Es1).
  destruct (atoi_digits_ParseUint_loop s1 0) as [-> Hres]; [lia| |].
  { rewrite Z.add_0_l, Z.mul_1_l. apply Z.pow_le_mono_r; lia. }
  destruct (atoi_digits s1 0) as [v [e|]].
  - destruct Hres as [-> ->]. done.
  - change (10 ^ 18)%Z with 1000000000000000000%Z in Hres.
    change (2 ^ 63)%Z with 9223372036854775808%Z.
    destruct (bool_decide (c0 = "-"%char)); cbn [negb andb].
    + by rewrite (proj2 (Z.ltb_ge _ _)) by lia.
    + by rewrite (proj2 (Z.leb_gt _ _)) by lia.
Qed.

Lemma sign_not_digit (c : ascii) : isSign c = true → digit c = None.
Proof.
  destruct (digit c) as [d|] eqn:Hd; [|done].
  by rewrite (digit_not_sign c d Hd).
Qed.

Lemma allDigits_head (c : ascii) (s : string) :
  allDigits (String c s) = true → isSign c = false.
Proof.
  cbn. intros [[d Hd]%bool_decide_eq_true _]%andb_true_iff.
  by eapply digit_not_sign.
Qed.

Lemma ParseUint_digits (s : string) :
  s ≠ "" → allDigits s = true →
  ParseUint s
  = if (decimal s 0 <=? maxUint64)%Z then (decimal s 0, None)
    else (maxUint64, Some ErrRange).
Proof.
  intros Hne Hs. destruct s as [|c s]; [done|].
  apply (ParseUint_loop_digits (String c s) 0 Hs). unfold maxUint64. lia.
Qed.

(** X1: [IntVal] and [Int64Val] give the same integer on every Number,
    and fail on the same texts with an error of the same class (syntax
    or range): the fast path of [Atoi] agrees with [ParseInt].  The two
    errors still differ in the function name they carry. *)
Theorem IntVal_agrees_with_Int64Val (n : string) : IntVal n = Int64Val n.
Proof. apply Atoi_ParseInt. Qed.

(** X2: whatever the text, the integer returned with or without an error
    fits the type: [IntVal] and [Int64Val] stay within the 64-bit signed
    range, [Uint64Val] within the 64-bit unsigned range. *)
Theorem Number_values_in_range (n : string) :
  (- 2 ^ 63 ≤ (IntVal n).1 ≤ 2 ^ 63 - 1)%Z
  ∧ (- 2 ^ 63 ≤ (Int64Val n).1 ≤ 2 ^ 63 - 1)%Z
  ∧ (0 ≤ (Uint64Val n).1 ≤ 2 ^ 64 - 1)%Z.
Proof.
  unfold IntVal, Int64Val, Uint64Val. rewrite Atoi_ParseInt.
  pose proof (ParseInt_result n) as HI. pose proof (ParseUint_result n) as HU.
  destruct (ParseInt n) as [v [[]|]], (ParseUint n) as [u [[]|]];
    unfold maxUint64 in *; cbn [fst]; lia.
Qed.

(** X3: the integer that comes with an error is fixed by the error: 0
    with a syntax error, the nearest bound of the type with a range
    error. *)
Theorem Number_error_values (n : string) :
  ((Int64Val n).2 = Some ErrSyntax → (Int64Val n).1 = 0%Z)
  ∧ ((Int64Val n).2 = Some ErrRange →
     (Int64Val n).1 = (2 ^ 63 - 1)%Z ∨ (Int64Val n).1 = (- 2 ^ 63)%Z)
  ∧ ((Uint64Val n).2 = Some ErrSyntax → (Uint64Val n).1 = 0%Z)
  ∧ ((Uint64Val n).2 = Some ErrRange → (Uint64Val n).1 = (2 ^ 64 - 1)%Z).
Proof.
  unfold Int64Val, Uint64Val.
  pose proof (ParseInt_result n) as HI. pose proof (ParseUint_result n) as HU.
  destruct (ParseInt n) as [v [[]|]], (ParseUint n) as [u [[]|]];
    cbn [fst snd]; repeat split; intros [=]; done.
Qed.

Lemma Number_error_values_witness :
  (Int64Val "-9223372036854775809").1 = (2 ^ 63 - 1)%Z
  ∨ (Int64Val "-9223372036854775809").1 = (- 2 ^ 63)%Z.
Proof.
  destruct (Number_error_values "-9223372036854775809") as (_ & H & _).
  apply H. reflexivity.
Defined.

(** X4: on a non-empty string of digits [Uint64Val] returns the integer
    the digits denote when it fits 64 bits, and 2^64-1 with a range
    error otherwise; a text that starts with a sign is a syntax error. *)
Theorem Uint64Val_decimal (s : string) :
  (s ≠ "" → allDigits s = true →
   Uint64Val s
   = if (decimal s 0 <=? 2 ^ 64 - 1)%Z then (decimal s 0, None)
     else ((2 ^ 64 - 1)%Z, Some ErrRange))
  ∧ (∀ c, isSign c = true →
          Uint64Val (String c s) = (0%Z, Some ErrSyntax)).
Proof.
  split.
  - apply ParseUint_digits.
  - intros c Hc. unfold Uint64Val. cbn. by rewrite (sign_not_digit c Hc).
Qed.

Lemma Uint64Val_decimal_witness :
  Uint64Val "18446744073709551616" = ((2 ^ 64 - 1)%Z, Some ErrRange)
  ∧ Uint64Val "+5" = (0%Z, Some ErrSyntax).
Proof.
  destruct (Uint64Val_decimal "18446744073709551616") as [H _].
  destruct (Uint64Val_decimal "5") as [_ H'].
  split; [apply H; [discriminate | reflexivity] | apply H'; reflexivity].
Defined.

(** X5: on a non-empty string of digits, bare or after a plus sign,
    [Int64Val] returns the denoted integer when it is at most 2^63-1 and
    2^63-1 with a range error otherwise; after a minus sign it returns
    the negated integer when the digits denote at most 2^63, and -2^63
    with a range error otherwise. *)
Theorem Int64Val_decimal (body : string) :
  body ≠ "" → allDigits body = true →
  let v := decimal body 0 in
  let pos := if (v <=? 2 ^ 63 - 1)%Z then (v, None)
             else ((2 ^ 63 - 1)%Z, Some ErrRange) in
  Int64Val body = pos
  ∧ Int64Val (String "+" body) = pos
  ∧ Int64Val (String "-" body)
    = if (v <=? 2 ^ 63)%Z then ((- v)%Z, None)
      else ((- 2 ^ 63)%Z, Some ErrRange).
Proof.
  intros Hne Hs v pos. unfold Int64Val.
  pose proof (ParseUint_digits body Hne Hs) as HU. fold v in HU.
  pose proof (decimal_ge body 0 Hs ltac:(lia)) as Hv. fold v in Hv.
  assert (ParseInt body = pos) as Hbody.
  { destruct body as [|c0 s'] eqn:E; [done|]. unfold ParseInt.
    rewrite (allDigits_head c0 s' Hs).
    assert (bool_decide (c0 = "-"%char) = false) as ->.
    { apply bool_decide_eq_false. intros ->. by pose proof (allDigits_head _ _ Hs). }
    rewrite HU. unfold pos, maxUint64 in *. cbn [negb andb].
    destruct (Z.leb_spec v (2 ^ 64 - 1)), (Z.leb_spec v (2 ^ 63 - 1));
      try lia.
    - by rewrite (proj2 (Z.leb_gt _ _)) by lia.
    - by rewrite (proj2 (Z.leb_le _ _)) by lia.
    - done. }
  split; [done|]. split.
  - unfold ParseInt. change (isSign "+") with true.
    change (bool_decide ("+"%char = "-"%char)) with false.
    lazy iota. rewrite HU. unfold pos, maxUint64 in *. cbn [negb andb].
    destruct (Z.leb_spec v (2 ^ 64 - 1)), (Z.leb_spec v (2 ^ 63 - 1));
      try lia.
    + by rewrite (proj2 (Z.leb_gt _ _)) by lia.
    + by rewrite (proj2 (Z.leb_le _ _)) by lia.
    + done.
  - unfold ParseInt. change (isSign "-") with true.
    change (bool_decide ("-"%char = "-"%char)) with true.
    lazy iota. rewrite HU. unfold maxUint64 in *. cbn [negb andb].
    destruct (Z.leb_spec v (2 ^ 64 - 1)), (Z.leb_spec v (2 ^ 63));
      try lia.
    + by rewrite (proj2 (Z.ltb_ge _ _)) by lia.
    + by rewrite (proj2 (Z.ltb_lt _ _)) by lia.
    + done.
Qed.

Lemma Int64Val_decimal_witness :
  Int64Val "42" = (42%Z, None)
  ∧ Int64Val "+42" = (42%Z, None)
  ∧ Int64Val "-42" = ((-42)%Z, None).
Proof.
  apply (Int64Val_decimal "42"); [discriminate | reflexivity].
Defined.

(** ** Which Numbers [GetBool] reads as true *)

Lemma digit_zero (c : ascii) : digit c = Some 0%Z → c = "0"%char.
Proof.
  destruct c as [[] [] [] [] [] [] [] []]; vm_compute; congruence.
Qed.

Lemma digit_one (c : ascii) : digit c = Some 1%Z → c = "1"%char.
Proof.
  destruct c as [[] [] [] [] [] [] [] []]; vm_compute; congruence.
Qed.

Lemma ParseUint_loop_one (s : string) (n : Z) :
  (0 ≤ n)%Z → ParseUint_loop s n = (1%Z, None) →
  (n = 1%Z ∧ s = "") ∨ (n = 0%Z ∧ ∃ j, s = zerosOne j).
Proof.
  revert n. induction s as [|c s IH]; intros n Hn; cbn [ParseUint_loop].
  - intros [= ->]. by left.
  - destruct (digit c) as [d|] eqn:Hd; [|done].
    pose proof (digit_range c d Hd).
    destruct (_ <=? n)%Z; [done|]. destruct (_ <? _)%Z; [done|].
    intros Hloop. right.
    destruct (IH (n * 10 + d)%Z ltac:(lia) Hloop) as [[H1 ->]|[H0 [j ->]]].
    + assert (n = 0%Z ∧ d = 1%Z) as [-> ->] by lia.
      split; [done|]. exists 0. by rewrite (digit_one c Hd).
    + assert (n = 0%Z ∧ d = 0%Z) as [-> ->] by lia.
      split; [done|]. exists (S j). by rewrite (digit_zero c Hd).
Qed.

Lemma ParseUint_loop_zerosOne (j : nat) :
  ParseUint_loop (zerosOne j) 0 = (1%Z, None).
Proof. induction j as [|j IH]; [reflexivity|]. exact IH. Qed.

Lemma zerosOne_head (j : nat) :
  ∃ c s, zerosOne j = String c s ∧ isSign c = false.
Proof. destruct j; eexists _, _; (split; [reflexivity|reflexivity]). Qed.

(** The texts [ParseInt] reads as the integer 1: the digit 1 after any
    number of zeros, with or without a plus sign. *)
Lemma ParseInt_one (s : string) :
  (ParseInt s).1 = 1%Z ↔ ∃ j, s = zerosOne j ∨ s = String "+" (zerosOne j).
Proof.
  split.
  - destruct s as [|c0 s']; [done|]. unfold ParseInt.
    set (s1 := if isSign c0 then s' else String c0 s').
    pose proof (ParseUint_result s1) as Hres.
    destruct (ParseUint s1) as [un e] eqn:HU.
    assert ((un, e) = (1%Z, None) → ∃ j, s1 = zerosOne j) as Hs1.
    { intros [= -> ->]. destruct s1 as [|c1 s1']; [done|].
      destruct (ParseUint_loop_one (String c1 s1') 0 ltac:(lia) HU)
        as [[? _]|[_ ?]]; done. }
    unfold maxUint64 in Hres.
    destruct e as [[]|]; [done| |].
    + subst un. cbn [fst].
      destruct (bool_decide (c0 = "-"%char)); cbn [negb andb fst];
        repeat case_match; cbn [fst]; lia.
    + destruct (bool_decide (c0 = "-"%char)) eqn:Hneg; cbn [negb andb].
      * repeat case_match; cbn [fst]; lia.
      * destruct (Z.leb_spec (2 ^ 63) un); cbn [fst]; [lia|].
        intros ->. destruct (Hs1 eq_refl) as [j Hj]. exists j.
        unfold s1 in Hj. destruct (isSign c0) eqn:Hsign; [|by left].
        right. unfold isSign in Hsign. rewrite Hneg in Hsign.
        by apply bool_decide_eq_true in Hsign as ->; subst.
  - intros [j [->| ->]].
    + destruct (zerosOne_head j) as (c & s & E & Hc).
      pose proof (ParseUint_loop_zerosOne j) as HU. rewrite E in *.
      unfold ParseInt. rewrite Hc.
      assert (bool_decide (c = "-"%char) = false) as ->.
      { apply bool_decide_eq_false. by intros ->. }
      cbn [ParseUint]. by rewrite HU.
    + unfold ParseInt. change (isSign "+") with true.
      change (bool_decide ("+"%char = "-"%char)) with false. lazy iota.
      destruct (zerosOne_head j) as (c & s & E & Hc).
      pose proof (ParseUint_loop_zerosOne j) as HU. rewrite E in *.
      cbn [ParseUint]. by rewrite HU.
Qed.

(** X6: on a Number, [GetBool] returns true exactly for the texts that
    write the integer 1 as the digit 1 after any number of zeros, with or
    without a plus sign ("1", "01", "+1", ...); every other text, "1.0",
    "true" and "-1" included, gives false. *)
Theorem GetBool_true_texts (d : gmap string value) (k : string)
  (n : string) :
  d !! k = Some (VNumber n) →
  (GetBool d k = Returned true
   ↔ ∃ j, n = zerosOne j ∨ n = String "+" (zerosOne j))
  ∧ (GetBool d k = Returned true ∨ GetBool d k = Returned false).
Proof.
  intros Hk. rewrite <- ParseInt_one, <- Atoi_ParseInt.
  unfold GetBool. rewrite (index_present d k _ Hk).
  cbn [isnil negb assertNumber rbind]. unfold IntVal.
  destruct (Atoi n) as [res e]. cbn [fst].
  destruct (Z.eqb_spec res 1); split; try tauto; split; congruence.
Qed.

Lemma GetBool_true_texts_witness :
  GetBool {[ "flag" := VNumber "+001" ]} "flag" = Returned true.
Proof.
  destruct (GetBool_true_texts {[ "flag" := VNumber "+001" ]} "flag" "+001")
    as [H _]; [reflexivity|].
  apply H. exists 2. by right.
Defined.

(** ** A document as parameters *)

(** X7: [Document.AsParams] yields one [Param] per field and nothing
    else: as many params as the document has fields, no key twice, and a
    param [{k, v}] is in the list exactly when the document maps [k] to
    [v]; an empty or nil value is a param like any other. *)
Theorem Document_AsParams_fields (d : gmap string value) :
  length (AsParams d) = size d
  ∧ NoDup (Key <$> AsParams d)
  ∧ ∀ k v, mkParam k v ∈ AsParams d ↔ d !! k = Some v.
Proof.
  unfold AsParams, Document_Params. split; [|split].
  - by rewrite length_fmap, length_map_to_list.
  - rewrite <- list_fmap_compose. exact (NoDup_fst_map_to_list d).
  - intros k v. rewrite list_elem_of_fmap. split.
    + intros ([k' v'] & [= -> ->] & H). by apply elem_of_map_to_list.
    + intros H. exists (k, v). split; [done|]. by apply elem_of_map_to_list.
Qed.

(** X8: a key built by [HashKey] gives, as parameters, the one-element
    list a single [Param] gives; a key built by [HashRangeKey] from two
    different names gives the two params, in an order that is not
    fixed. *)
Theorem Key_AsParams (hashName rangeName : string) (hashVal rangeVal : value) :
  AsParams (HashKey hashName hashVal) = AsParams (mkParam hashName hashVal)
  ∧ (hashName ≠ rangeName →
     AsParams (HashRangeKey hashName hashVal rangeName rangeVal)
     ≡ₚ [mkParam rangeName rangeVal; mkParam hashName hashVal]).
Proof.
  unfold AsParams, Document_Params, Param_Params, HashKey, HashRangeKey.
  split.
  - by rewrite map_to_list_singleton.
  - intros Hne. rewrite map_to_list_insert.
    + by rewrite map_to_list_singleton.
    + by rewrite lookup_singleton_ne.
Qed.

Lemma Key_AsParams_witness :
  AsParams (HashRangeKey "id" (VString "u1") "ts" (VNumber "7"))
  ≡ₚ [mkParam "ts" (VNumber "7"); mkParam "id" (VString "u1")].
Proof.
  apply (Key_AsParams "id" "ts" (VString "u1") (VNumber "7")). discriminate.
Defined.

(** ** Encoding after an assignment *)

(** X9: how the fields [MarshalJSON] writes follow an assignment to the
    document: assigning a non-empty value writes the key with the wire
    node of that value, assigning an empty value removes the key from
    the output (also when it was written before), and deleting a key
    removes it; all other keys are written as before. *)
Theorem MarshalJSON_after_assignment (d : gmap string value) (k : string)
  (v : value) :
  MarshalJSON_output (<[k := v]> d)
  = (if isEmptyValue v then delete k (MarshalJSON_output d)
     else <[k := wireEncode v]> (MarshalJSON_output d))
  ∧ MarshalJSON_output (delete k d) = delete k (MarshalJSON_output d).
Proof.
  rewrite !MarshalJSON_output_omap. split.
  - rewrite omap_insert. unfold skipEmpty at 1. by destruct (isEmptyValue v).
  - apply omap_delete.
Qed.

(** ** Successive decodes *)

Lemma map_sequence_Some_iff {A} (m : gmap string (option A))
  (m' : gmap string A) :
  map_sequence m = Some m' ↔ m = Some <$> m'.
Proof.
  split.
  - intros H. apply map_eq. intros k.
    by rewrite (map_sequence_lookup m m' k H), lookup_fmap.
  - intros ->. apply map_sequence_Some.
Qed.

(** X10: decoding one JSON object and then another into the same
    document, both without failure, leaves the document exactly as one
    decode of the merged object does, the fields of the later object
    winning; in particular decoding the same object twice is decoding it
    once. *)
Theorem UnmarshalJSON_twice (d st1 st2 : option (gmap string value))
  (m1 m2 : gmap string JSON) (e1 e2 : option json_error) :
  UnmarshalJSON d (text (JObject m1)) = Returned (st1, e1) →
  UnmarshalJSON st1 (text (JObject m2)) = Returned (st2, e2) →
  UnmarshalJSON d (text (JObject (m2 ∪ m1))) = Returned (st2, None)
  ∧ (m2 = m1 → st2 = st1).
Proof.
  rewrite !UnmarshalJSON_object.
  destruct (map_sequence (wireDecode <$> m1)) as [dec1|] eqn:H1; [|done].
  destruct (map_sequence (wireDecode <$> m2)) as [dec2|] eqn:H2; [|done].
  intros [= <- <-] [= <- <-]. cbn [default].
  apply map_sequence_Some_iff in H1, H2. split.
  - assert (map_sequence (wireDecode <$> (m2 ∪ m1)) = Some (dec2 ∪ dec1))
      as ->.
    { apply map_sequence_Some_iff.
      by rewrite !map_fmap_union, H1, H2. }
    by rewrite (assoc_L (∪)).
  - intros ->. assert (dec2 = dec1) as ->.
    { apply (inj (fmap Some)). congruence. }
    by rewrite (assoc_L (∪)), (idemp_L (∪)).
Qed.

Lemma UnmarshalJSON_twice_witness :
  UnmarshalJSON None
    (text (JObject ({[ "a" := node DS (JString "new") ]}
                    ∪ {[ "a" := node DS (JString "old");
                         "b" := node DN (JString "1") ]})))
  = Returned (Some {[ "a" := VString "new"; "b" := VNumber "1" ]}, None).
Proof.
  eapply (UnmarshalJSON_twice None
            (Some {[ "a" := VString "old"; "b" := VNumber "1" ]}));
    reflexivity.
Defined.

(** X11: a decode never removes a key: after decoding a JSON object the
    keys of the document are the keys it had together with the keys of
    the object. *)
Theorem UnmarshalJSON_keys (d : option (gmap string value))
  (incoming : gmap string JSON) (dd : gmap string value)
  (e : option json_error) :
  UnmarshalJSON d (text (JObject incoming)) = Returned (Some dd, e) →
  dom dd = dom incoming ∪ dom (default ∅ d).
Proof.
  rewrite UnmarshalJSON_object.
  destruct (map_sequence (wireDecode <$> incoming)) as [dec|] eqn:H;
    [|done].
  intros [= <- <-]. apply map_sequence_Some_iff in H.
  rewrite dom_union_L. f_equal.
  by rewrite <- (dom_fmap_L Some dec), <- H, dom_fmap_L.
Qed.

Lemma UnmarshalJSON_keys_witness :
  dom ({[ "a" := VString "x"; "b" := VString "y" ]} : gmap string value)
  = dom ({[ "b" := node DS (JString "y") ]} : gmap string JSON)
    ∪ dom (default ∅ (Some ({[ "a" := VString "x" ]} : gmap string value))).
Proof.
  apply (UnmarshalJSON_keys (Some {[ "a" := VString "x" ]})
           {[ "b" := node DS (JString "y") ]} _ None).
  reflexivity.
Defined.

(** ** Reading back what was stored *)

Lemma index_insert (d : gmap string value) (k k' : string) (v : value) :
  index (<[k := v]> d) k' = if decide (k = k') then v else index d k'.
Proof. unfold index. rewrite lookup_insert. by case_decide. Qed.

(** X12: an accessor reads back the value stored under its key when the
    value has the accessor's type, and an assignment to one key changes
    what no accessor reads under another key. *)
Theorem accessors_read_what_was_stored (d : gmap string value)
  (k : string) :
  (∀ s, GetString (<[k := VString s]> d) k = Returned s)
  ∧ (∀ n, GetNumber (<[k := VNumber n]> d) k = Returned n)
  ∧ (∀ ss, GetStringSet (<[k := VStringSet ss]> d) k = Returned ss)
  ∧ (∀ l, GetList (<[k := VList l]> d) k = Returned l)
  ∧ (∀ k' v, k ≠ k' →
       GetString (<[k := v]> d) k' = GetString d k'
       ∧ GetNumber (<[k := v]> d) k' = GetNumber d k'
       ∧ GetStringSet (<[k := v]> d) k' = GetStringSet d k'
       ∧ GetList (<[k := v]> d) k' = GetList d k'
       ∧ GetBool (<[k := v]> d) k' = GetBool d k'
       ∧ GetTime (<[k := v]> d) k' = GetTime d k').
Proof.
  unfold GetString, GetNumber, GetStringSet, GetList, GetBool, GetTime.
  repeat split; intros; rewrite index_insert;
    by (rewrite decide_True by done) || by (rewrite decide_False by done).
Qed.

Lemma accessors_read_what_was_stored_witness :
  GetString (<[ "a" := VBool true ]> {[ "name" := VString "abc" ]}) "name"
  = GetString {[ "name" := VString "abc" ]} "name".
Proof.
  destruct (accessors_read_what_was_stored {[ "name" := VString "abc" ]} "a")
    as (_ & _ & _ & _ & H).
  apply (H "name" (VBool true)). discriminate.
Defined.

(** ** The times [GetTime] returns *)

Lemma digit0_range (c : ascii) : (0 ≤ digit0 c ≤ 9)%Z.
Proof.
  unfold digit0. destruct (digit c) as [d|] eqn:Hd; cbn; [|lia].
  by eapply digit_range.
Qed.

Lemma getnum_range (s s' : string) (fixed : bool) (n : Z) :
  getnum s fixed = Some (n, s') → (0 ≤ n ≤ 99)%Z.
Proof.
  destruct s as [|c0 s1]; [done|]. unfold getnum.
  pose proof (digit0_range c0).
  destruct (negb (isDigit _ 0)); [done|].
  destruct (negb (isDigit _ 1)).
  - destruct fixed; [done|]. intros [= <- <-]. lia.
  - destruct s1 as [|c1 s2]; [done|]. pose proof (digit0_range c1).
    intros [= <- <-]. lia.
Qed.

Lemma leadingDigits_range (s rest : string) (ds : list Z) :
  leadingDigits s = (ds, rest) →
  Forall (λ d, 0 ≤ d ≤ 9)%Z ds ∧ (length ds ≤ String.length s)%nat.
Proof.
  revert ds rest. induction s as [|c s IH]; intros ds rest; cbn.
  - intros [= <- <-]. split; [constructor|done].
  - destruct (digit c) as [d|] eqn:Hd.
    + destruct (leadingDigits s) as [ds' rest'].
      destruct (IH ds' rest' eq_refl) as [Hds Hlen].
      intros [= <- <-]. split; [|cbn; lia].
      constructor; [by eapply digit_range|done].
    + intros [= <- <-]. split; [constructor|cbn; lia].
Qed.

Lemma foldl_digits_bound (ds : list Z) (n : Z) :
  Forall (λ d, 0 ≤ d ≤ 9)%Z ds → (0 ≤ n)%Z →
  (0 ≤ foldl (λ n d, n * 10 + d) n ds)%Z
  ∧ (foldl (λ n d, n * 10 + d) n ds + 1
     ≤ (n + 1) * 10 ^ Z.of_nat (length ds))%Z.
Proof.
  intros Hds. revert n. induction Hds as [|d ds Hd _ IH]; intros n Hn.
  - cbn. lia.
  - cbn [foldl length]. rewrite Nat2Z.inj_succ, Z.pow_succ_r by lia.
    destruct (IH (n * 10 + d)%Z ltac:(lia)) as [H0 H1]. split; [done|].
    assert (0 < 10 ^ Z.of_nat (length ds))%Z by (apply Z.pow_pos_nonneg; lia).
    nia.
Qed.

Lemma digitsVal_bound (ds : list Z) :
  Forall (λ d, 0 ≤ d ≤ 9)%Z ds →
  (0 ≤ digitsVal ds < 10 ^ Z.of_nat (length ds))%Z.
Proof.
  intros Hds. destruct (foldl_digits_bound ds 0 Hds ltac:(lia)).
  unfold digitsVal. lia.
Qed.

Lemma length_substring_le (s : string) (n m : nat) :
  (String.length (String.substring n m s) ≤ m)%nat.
Proof.
  revert n m. induction s as [|c s IH]; intros [|n] [|m]; cbn; try lia.
  - specialize (IH 0 m). lia.
  - apply (IH n 0).
  - apply (IH n (S m)).
Qed.

Lemma fractionalSecond_range (v rest : string) (ns : Z) :
  fractionalSecond v = (ns, rest) → (0 ≤ ns < 10 ^ 9)%Z.
Proof.
  unfold fractionalSecond. destruct v as [|c0 v1]; [intros [= <- <-]; lia|].
  destruct (_ && _); [|intros [= <- <-]; lia].
  destruct (leadingDigits v1) as [ds r] eqn:Hds. intros [= <- <-].
  apply leadingDigits_range in Hds as [Hds _].
  assert (Forall (λ d, 0 ≤ d ≤ 9)%Z (take 9 ds)) as Hkept
    by (by apply Forall_take).
  pose proof (digitsVal_bound (take 9 ds) Hkept) as Hb.
  assert (length (take 9 ds) ≤ 9)%nat as Hlen by (rewrite length_take; lia).
  set (l := length (take 9 ds)) in *.
  assert (10 ^ Z.of_nat l * 10 ^ Z.of_nat (9 - l) = 10 ^ 9)%Z as Hpow.
  { rewrite <- Z.pow_add_r by lia. f_equal. lia. }
  assert (0 < 10 ^ Z.of_nat (9 - l))%Z by (apply Z.pow_pos_nonneg; lia).
  nia.
Qed.

Lemma parseChunk_partial (c : chunk) (t t' : Time) (v v' : string) :
  partialTime t → parseChunk c t v = Some (t', v') → partialTime t'.
Proof.
  unfold partialTime. intros (Hy & Hm & Hh & Hmi & Hs & Hn).
  destruct c; cbn [parseChunk].
  - destruct (_ || _); [done|].
    destruct (leadingDigits _) as [ds [|]] eqn:Hds; [|done].
    intros [= <- <-]. cbn. apply leadingDigits_range in Hds as [Hds Hlen].
    pose proof (length_substring_le v 0 4).
    pose proof (digitsVal_bound ds Hds) as Hb.
    assert (10 ^ Z.of_nat (length ds) ≤ 10 ^ 4)%Z
      by (apply Z.pow_le_mono_r; lia).
    repeat split; try done; lia.
  - destruct (getnum v true) as [[n v1]|] eqn:Hg; [|done]. cbn.
    destruct (Z.leb_spec n 0), (Z.ltb_spec 12 n); cbn; try done.
    intros [= <- <-]. cbn. repeat split; try done; lia.
  - destruct (getnum v true) as [[n v1]|] eqn:Hg; [|done]. cbn.
    intros [= <- <-]. cbn. done.
  - destruct (getnum v false) as [[n v1]|] eqn:Hg; [|done]. cbn.
    destruct (Z.ltb_spec n 0), (Z.leb_spec 24 n); cbn; try done.
    intros [= <- <-]. cbn. repeat split; try done; lia.
  - destruct (getnum v true) as [[n v1]|] eqn:Hg; [|done]. cbn.
    destruct (Z.ltb_spec n 0), (Z.leb_spec 60 n); cbn; try done.
    intros [= <- <-]. cbn. repeat split; try done; lia.
  - destruct (getnum v true) as [[n v1]|] eqn:Hg; [|done]. cbn.
    destruct (Z.ltb_spec n 0), (Z.leb_spec 60 n); cbn; try done.
    destruct (fractionalSecond v1) as [ns v2] eqn:Hf.
    apply fractionalSecond_range in Hf.
    intros [= <- <-]. cbn. repeat split; try done; lia.
  - destruct v as [|ch v1]; [done|]. case_bool_decide; [|done].
    intros [= <- <-]. done.
Qed.

Lemma parseChunks_partial (layout : list chunk) (t t' : Time) (v : string) :
  partialTime t → parseChunks layout t v = Some t' → partialTime t'.
Proof.
  revert t v. induction layout as [|c layout IH]; intros t v Ht; cbn.
  - case_bool_decide; [|done]. by intros [= <-].
  - destruct (parseChunk c t v) as [[t1 v1]|] eqn:Hc; [|done]. cbn.
    apply IH. by eapply parseChunk_partial.
Qed.

(** Whatever the layout, a parse that succeeds yields a valid time. *)
Lemma ParseInLocation_valid (layout : list chunk) (v : string) (t : Time) :
  ParseInLocation layout v = Some t → validTime t.
Proof.
  unfold ParseInLocation.
  destruct (parseChunks layout _ v) as [t0|] eqn:Hp; [|done].
  apply parseChunks_partial in Hp; [|unfold partialTime; cbn; lia].
  destruct Hp as (Hy & Hm & Hh & Hmi & Hs & Hn).
  cbn [mbind option_bind]. cbv zeta.
  set (m := if (month t0 <? 0)%Z then 1%Z else month t0).
  set (d := if (day t0 <? 0)%Z then 1%Z else day t0).
  assert (1 ≤ m ≤ 12)%Z as Hm'.
  { unfold m. destruct (Z.ltb_spec (month t0) 0); lia. }
  destruct ((d <? 1)%Z || (daysIn m (year t0) <? d)%Z) eqn:Hchk; [done|].
  apply orb_false_iff in Hchk as [H1%Z.ltb_ge H2%Z.ltb_ge].
  intros [= <-]. unfold validTime. cbn. repeat split; try done; lia.
Qed.

(** X13: a time returned by [GetTime], in either copy of the file, is a
    valid calendar time: year 0 to 9999, month 1 to 12, a day that exists
    in that month of that year, hour below 24, minute and second below
    60, and less than a second of nanoseconds. *)
Theorem GetTime_returns_valid_time (d : gmap string value) (k : string)
  (t : Time) :
  (GetTime d k = Returned (Some t) → validTime t)
  ∧ (Part001.GetTime d k = Returned (Some t) → validTime t).
Proof.
  unfold Part001.GetTime, GetTime, GetString. split.
  - destruct (negb (isnil (index d k))); [|done].
    destruct (assertString (index d k)) as [s|]; [|done]. cbn [rbind].
    destruct (ParseInLocation iso8601compact s) as [t0|] eqn:Hp; [|done].
    intros [= <-]. by eapply ParseInLocation_valid.
  - destruct (negb (isnil (index d k))); cbn [rbind];
      [destruct (assertString (index d k)) as [s|]; [|done]|]; cbn [rbind];
      (match goal with
       | |- context [ParseInLocation iso8601extended ?x] =>
           destruct (ParseInLocation iso8601extended x) as [t0|] eqn:Hp;
             [|done]
       end);
      intros [= <-]; by eapply ParseInLocation_valid.
Qed.

Lemma GetTime_returns_valid_time_witness :
  validTime (mkTime 2015 3 14 9 26 53 0).
Proof.
  destruct (GetTime_returns_valid_time
              {[ "created" := VString "20150314T092653Z" ]} "created"
              (mkTime 2015 3 14 9 26 53 0)) as [H _].
  apply H. reflexivity.
Defined.

(** ** Reading the compact text of a time *)

Lemma digit_digitChar (n : Z) : (0 ≤ n ≤ 9)%Z → digit (digitChar n) = Some n.
Proof.
  intros H.
  assert (n = 0 ∨ n = 1 ∨ n = 2 ∨ n = 3 ∨ n = 4 ∨ n = 5 ∨ n = 6 ∨ n = 7
          ∨ n = 8 ∨ n = 9)%Z as Hn by lia.
  repeat (destruct Hn as [->|Hn]; [reflexivity|]). by subst.
Qed.

Lemma isDigit_head (n : Z) (s : string) :
  (0 ≤ n ≤ 9)%Z → isDigit (String (digitChar n) s) 0 = true.
Proof.
  intros H. unfold isDigit. cbn [String.get]. rewrite (digit_digitChar n H).
  by apply bool_decide_eq_true_2.
Qed.

Lemma isDigit_second (c : ascii) (n : Z) (s : string) :
  (0 ≤ n ≤ 9)%Z → isDigit (String c (String (digitChar n) s)) 1 = true.
Proof.
  intros H. unfold isDigit. cbn [String.get]. rewrite (digit_digitChar n H).
  by apply bool_decide_eq_true_2.
Qed.

Ltac divlia := Z.div_mod_to_equations; lia.

Lemma getnum_pad2 (n : Z) (rest : string) (fixed : bool) :
  (0 ≤ n ≤ 99)%Z → getnum (pad2 n rest) fixed = Some (n, rest).
Proof.
  intros H. unfold pad2, getnum.
  rewrite isDigit_head, isDigit_second by divlia. cbn [negb].
  unfold digit0. rewrite !digit_digitChar by divlia. cbn [default].
  unfold id. do 2 f_equal. divlia.
Qed.

Lemma substring_all (s : string) : String.substring 0 (String.length s) s = s.
Proof. induction s as [|c s IH]; cbn; [done|]. by rewrite IH. Qed.

Lemma parseChunk_year (t : Time) (y : Z) (rest : string) :
  (0 ≤ y ≤ 9999)%Z →
  parseChunk stdLongYear t
    (String (digitChar (y / 1000))
       (String (digitChar (y / 100 mod 10)) (pad2 (y mod 100) rest)))
  = Some (mkTime y (month t) (day t) (hour t) (minute t) (second t)
            (nanosecond t), rest).
Proof.
  intros H. cbn [parseChunk]. unfold pad2.
  rewrite isDigit_head by divlia.
  cbn [String.length Nat.ltb Nat.leb orb negb String.substring Nat.sub].
  cbn [leadingDigits]. rewrite !digit_digitChar by divlia.
  assert (String.substring 0 0 rest = "") as -> by (by destruct rest).
  rewrite Nat.sub_0_r, substring_all. cbn. do 3 f_equal. divlia.
Qed.

Lemma parseChunk_literal (t : Time) (c : ascii) (rest : string) :
  parseChunk (literal c) t (String c rest) = Some (t, rest).
Proof. cbn. by rewrite bool_decide_eq_true_2. Qed.

Lemma parseChunk_month (t : Time) (n : Z) (rest : string) :
  (1 ≤ n ≤ 12)%Z →
  parseChunk stdZeroMonth t (pad2 n rest)
  = Some (mkTime (year t) n (day t) (hour t) (minute t) (second t)
            (nanosecond t), rest).
Proof.
  intros H. cbn [parseChunk]. rewrite getnum_pad2 by lia.
  cbn [mbind option_bind].
  by rewrite (proj2 (Z.leb_gt _ _)), (proj2 (Z.ltb_ge _ _)) by lia.
Qed.

Lemma parseChunk_day (t : Time) (n : Z) (rest : string) :
  (0 ≤ n ≤ 99)%Z →
  parseChunk stdZeroDay t (pad2 n rest)
  = Some (mkTime (year t) (month t) n (hour t) (minute t) (second t)
            (nanosecond t), rest).
Proof. intros H. cbn [parseChunk]. by rewrite getnum_pad2 by lia. Qed.

Lemma parseChunk_hour (t : Time) (n : Z) (rest : string) :
  (0 ≤ n < 24)%Z →
  parseChunk stdHour t (pad2 n rest)
  = Some (mkTime (year t) (month t) (day t) n (minute t) (second t)
            (nanosecond t), rest).
Proof.
  intros H. cbn [parseChunk]. rewrite getnum_pad2 by lia.
  cbn [mbind option_bind].
  by rewrite (proj2 (Z.ltb_ge _ _)), (proj2 (Z.leb_gt _ _)) by lia.
Qed.

Lemma parseChunk_minute (t : Time) (n : Z) (rest : string) :
  (0 ≤ n < 60)%Z →
  parseChunk stdZeroMinute t (pad2 n rest)
  = Some (mkTime (year t) (month t) (day t) (hour t) n (second t)
            (nanosecond t), rest).
Proof.
  intros H. cbn [parseChunk]. rewrite getnum_pad2 by lia.
  cbn [mbind option_bind].
  by rewrite (proj2 (Z.ltb_ge _ _)), (proj2 (Z.leb_gt _ _)) by lia.
Qed.

(** The seconds are followed by the literal [Z]: no fraction is read. *)
Lemma parseChunk_second (t : Time) (n : Z) :
  (0 ≤ n < 60)%Z →
  parseChunk stdZeroSecond t (pad2 n "Z")
  = Some (mkTime (year t) (month t) (day t) (hour t) (minute t) n 0, "Z").
Proof.
  intros H. cbn [parseChunk]. rewrite getnum_pad2 by lia.
  cbn [mbind option_bind].
  by rewrite (proj2 (Z.ltb_ge _ _)), (proj2 (Z.leb_gt _ _)) by lia.
Qed.

Lemma ParseInLocation_formatCompact (t : Time) :
  validTime t → nanosecond t = 0%Z →
  ParseInLocation iso8601compact (formatCompact t) = Some t.
Proof.
  destruct t as [y mo da h mi se ns]. unfold validTime.
  cbn [year month day hour minute second nanosecond].
  intros (Hy & Hmo & Hda & Hh & Hmi & Hse & _) ->.
  assert (da ≤ 31)%Z as Hda31.
  { unfold daysIn in Hda. repeat case_match; lia. }
  unfold ParseInLocation, iso8601compact, formatCompact.
  cbn [year month day hour minute second nanosecond parseChunks].
  rewrite parseChunk_year by done. cbn [mbind option_bind].
  rewrite parseChunk_month by done. cbn [mbind option_bind].
  rewrite parseChunk_day by lia. cbn [mbind option_bind].
  rewrite parseChunk_literal. cbn [mbind option_bind].
  rewrite parseChunk_hour by done. cbn [mbind option_bind].
  rewrite parseChunk_minute by done. cbn [mbind option_bind].
  rewrite parseChunk_second by done. cbn [mbind option_bind].
  rewrite parseChunk_literal. cbn [mbind option_bind].
  rewrite bool_decide_eq_true_2 by done.
  cbn [mbind option_bind year month day hour minute second nanosecond].
  cbv zeta.
  rewrite (proj2 (Z.ltb_ge mo 0)), (proj2 (Z.ltb_ge da 0)) by lia.
  rewrite (proj2 (Z.ltb_ge da 1)), (proj2 (Z.ltb_ge _ da)) by lia.
  done.
Qed.

(** X14: [GetTime] reads the compact text of every valid time with whole
    seconds (four digits of year, two each of month and day, [T], two
    each of hour, minute and second, [Z]) back as that time. *)
Theorem GetTime_reads_compact_text (d : gmap string value) (k : string)
  (t : Time) :
  validTime t → nanosecond t = 0%Z →
  d !! k = Some (VString (formatCompact t)) →
  GetTime d k = Returned (Some t).
Proof.
  intros Ht Hns Hk. rewrite (GetTime_String d k _ Hk).
  by rewrite ParseInLocation_formatCompact.
Qed.

Lemma GetTime_reads_compact_text_witness :
  GetTime {[ "created" := VString "20160229T235959Z" ]} "created"
  = Returned (Some (mkTime 2016 2 29 23 59 59 0)).
Proof.
  apply (GetTime_reads_compact_text
           {[ "created" := VString "20160229T235959Z" ]} "created"
           (mkTime 2016 2 29 23 59 59 0)).
  - unfold validTime. cbn [year month day hour minute second nanosecond].
    change (daysIn 2 2016) with 29%Z. lia.
  - reflexivity.
  - reflexivity.
Defined.

(** ** The query builder *)

Section QueryBuilderFacts.
Context {Client CapacityDetail expressionAttributes : Type}.
Implicit Types q : Query Client CapacityDetail expressionAttributes.

(** X15: the order of two builder calls matters only when they are calls
    of the same method: calls of different methods commute, and of two
    calls of the same method the later one alone counts. *)
Theorem builder_calls_commute q (c1 c2 : builderCall) :
  (sameMethod c1 c2 = false → call (call q c1) c2 = call (call q c2) c1)
  ∧ (sameMethod c1 c2 = true → call (call q c1) c2 = call q c2).
Proof. destruct c1, c2; split; intros H; try done. Qed.

(** X16: no chain of builder calls touches the client, the table name,
    the filter expression, the expression attributes or the capacity
    detail, and none sets the scan direction to anything but descending:
    the direction is the one the query had, or descending. *)
Theorem builder_chain_frame q (calls : list builderCall) :
  let q' := foldl call q calls in
  client q' = client q
  ∧ TableName (req q') = TableName (req q)
  ∧ FilterExpression (req q') = FilterExpression (req q)
  ∧ attributes (req q') = attributes (req q)
  ∧ ReturnConsumedCapacity (req q') = ReturnConsumedCapacity (req q)
  ∧ (ScanIndexForward (req q') = ScanIndexForward (req q)
     ∨ ScanIndexForward (req q') = Some false).
Proof.
  revert q. induction calls as [|c calls IH]; intros q; cbn [foldl].
  - cbv zeta. tauto.
  - specialize (IH (call q c)). cbv zeta in *.
    destruct IH as (-> & -> & -> & -> & -> & Hdir).
    destruct c; cbn; repeat split; try done; destruct Hdir; auto.
Qed.

End QueryBuilderFacts.

Lemma builder_calls_commute_witness :
  call (call (newQuery tt tt tt "users") (callLimit 5)) callDesc
  = call (call (newQuery tt tt tt "users") callDesc) (callLimit 5).
Proof.
  apply (builder_calls_commute (newQuery tt tt tt "users")
           (callLimit 5) callDesc).
  reflexivity.
Defined.

(** ** Empty values and the accessors *)

(** X17: a field [MarshalJSON] omits is one the accessors do not miss:
    when a key holds an empty value, the accessor of that value's type
    (any accessor when the value is nil) reads what it reads once the
    key is deleted.  [GetBool] is the accessor of a Number here;
    [GetTime] is not covered, as it panics on the empty string. *)
Theorem accessors_blind_to_omitted_fields (d : gmap string value)
  (k : string) (v : value) :
  d !! k = Some v → isEmptyValue v = true →
  MarshalJSON_output d !! k = None
  ∧ (TypeOf v = Some TString ∨ v = VNil →
     GetString d k = GetString (delete k d) k)
  ∧ (TypeOf v = Some TNumber ∨ v = VNil →
     GetNumber d k = GetNumber (delete k d) k
     ∧ GetBool d k = GetBool (delete k d) k)
  ∧ (TypeOf v = Some TStringSet ∨ v = VNil →
     GetStringSet d k = GetStringSet (delete k d) k)
  ∧ (TypeOf v = Some TList ∨ v = VNil →
     GetList d k = GetList (delete k d) k).
Proof.
  intros Hk He. split.
  { rewrite MarshalJSON_output_lookup, Hk. cbn. unfold skipEmpty.
    by rewrite He. }
  assert (index (delete k d) k = VNil) as Hdel
    by (unfold index; by rewrite lookup_delete_eq).
  unfold GetString, GetNumber, GetBool, GetStringSet, GetList.
  rewrite Hdel, (index_present d k v Hk). clear Hdel Hk.
  assert (∀ s : string, Nat.eqb (String.length s) 0 = true → s = "")
    as Hstr by (by intros []).
  assert (∀ A (l : list A), Nat.eqb (length l) 0 = true → l = [])
    as Hlist by (by intros ? []).
  destruct v as [|s|n|b|b|ss|ns|bs|l|m]; cbn in He; try done;
    try apply Hstr in He as ->; try apply Hlist in He as ->;
    split_and!; intros [[=]|[=]]; try split; reflexivity.
Qed.

Lemma accessors_blind_to_omitted_fields_witness :
  GetStringSet {[ "tags" := VStringSet [] ]} "tags"
  = GetStringSet (delete "tags" {[ "tags" := VStringSet [] ]}) "tags".
Proof.
  destruct (accessors_blind_to_omitted_fields
              {[ "tags" := VStringSet [] ]} "tags" (VStringSet []))
    as (_ & _ & _ & H & _); [reflexivity | reflexivity |].
  apply H. by left.
Defined.

(** ** [GetTime] in the other copy of the file *)

(** X18: the [GetTime] of the other copy panics exactly when [GetString]
    does, that is on a value that is neither nil nor a string; on a
    string it always returns, nil when the text does not parse, and on an
    absent key it returns nil. *)
Theorem Part001_GetTime_panics_as_GetString (d : gmap string value)
  (k : string) :
  (∀ p, Part001.GetTime d k = Panicked p ↔ GetString d k = Panicked p)
  ∧ (∀ s, d !! k = Some (VString s) →
          Part001.GetTime d k
          = Returned (ParseInLocation iso8601extended s))
  ∧ (d !! k = None → Part001.GetTime d k = Returned None).
Proof.
  unfold Part001.GetTime. split; [|split].
  - intros p. destruct (GetString d k) as [s|p']; cbn [rbind];
      [|split; by intros [= ->]].
    destruct (ParseInLocation iso8601extended s); split; intros [=].
  - intros s Hk. unfold GetString. rewrite (index_present d k _ Hk).
    cbn [isnil negb assertString rbind].
    by destruct (ParseInLocation iso8601extended s).
  - intros Hk. unfold GetString, index. rewrite Hk. reflexivity.
Qed.

Lemma Part001_GetTime_panics_as_GetString_witness :
  Part001.GetTime {[ "t" := VString "yesterday" ]} "t" = Returned None.
Proof.
  destruct (Part001_GetTime_panics_as_GetString
              {[ "t" := VString "yesterday" ]} "t") as (_ & H & _).
  apply (H "yesterday"). reflexivity.
Defined.
